(** * Memory manager, response generation and user preferences

    A shallow embedding of [memory_manager.py], of
    [FirdavsAIAgent.generate_response] in [ai_agent.py] and of
    [utils/user_prefs.py], with the properties of the retrieval and
    memory subsystem proved over it.

    Python values are modelled as follows.
    - [str] is a list of Unicode code points ([pystr]), so that [len] and
      slicing count characters as Python does;
    - [float] is the kernel's binary64 ([PrimFloat.float]);
    - [dict] is a [gmap]; [list] is [list];
    - the vector store, the episodic backend and the generation backend
      are collaborators outside the repository: their calls are the
      fields of the class [Backends], and the result of a call is [None]
      when the call raises. *)

From Stdlib Require Import ZArith NArith List Lia Ascii String.
From Stdlib Require Import Floats.PrimFloat.
From stdpp Require Import gmap list.

Set Warnings "-inexact-float".
Local Open Scope nat_scope.

(* ================================================================== *)
(** * Python strings *)
(* ================================================================== *)

Module PyStr.

(** A character is a Unicode code point. *)
Abbreviation char := N (only parsing).
Abbreviation pystr := (list N) (only parsing).

(** UTF-8 decoding of a source literal: [need] continuation bytes are
    still expected and [acc] holds the bits read so far. *)
Fixpoint utf8_go (bs : list N) (need : nat) (acc : N) : pystr :=
  match bs with
  | [] => []
  | b :: bs' =>
      match need with
      | O =>
          if (b <? 128)%N then b :: utf8_go bs' 0 0%N
          else if (b <? 224)%N then utf8_go bs' 1 (b mod 32)%N
          else if (b <? 240)%N then utf8_go bs' 2 (b mod 16)%N
          else utf8_go bs' 3 (b mod 8)%N
      | S n =>
          let acc' := (acc * 64 + b mod 64)%N in
          match n with
          | O => acc' :: utf8_go bs' 0 0%N
          | S _ => utf8_go bs' n acc'
          end
      end
  end.

Definition py (s : string) : pystr :=
  utf8_go (List.map N_of_ascii (list_ascii_of_string s)) 0 0%N.

(** ["\n"] *)
Definition NL : pystr := [10%N].

(** [len(s)] *)
Definition len (s : pystr) : nat := length s.

(** The characters [str.strip()] and [str.split()] treat as white
    space (CPython's [Py_UNICODE_ISSPACE]). *)
Definition isspace (c : N) : bool :=
  ((9 <=? c) && (c <=? 13) || (28 <=? c) && (c <=? 32)
   || (c =? 133) || (c =? 160) || (c =? 5760)
   || (8192 <=? c) && (c <=? 8202)
   || (c =? 8232) || (c =? 8233) || (c =? 8239) || (c =? 8287)
   || (c =? 12288))%N.

Fixpoint lstrip (s : pystr) : pystr :=
  match s with
  | [] => []
  | c :: s' => if isspace c then lstrip s' else s
  end.

Definition rstrip (s : pystr) : pystr := rev (lstrip (rev s)).

(** [s.strip()] *)
Definition strip (s : pystr) : pystr := rstrip (lstrip s).

(** [s.split()]: the maximal runs of non-space characters; [cur] is the
    run being read, in reverse. *)
Fixpoint split_go (s : pystr) (cur : pystr) : list pystr :=
  match s with
  | [] => match cur with [] => [] | _ => [rev cur] end
  | c :: s' =>
      if isspace c
      then match cur with
           | [] => split_go s' []
           | _ => rev cur :: split_go s' []
           end
      else split_go s' (c :: cur)
  end.

Definition split (s : pystr) : list pystr := split_go s [].

(** [sep.join(parts)] *)
Fixpoint join (sep : pystr) (parts : list pystr) : pystr :=
  match parts with
  | [] => []
  | [p] => p
  | p :: rest => p ++ sep ++ join sep rest
  end.

(** What [join] adds after the first part. *)
Definition join_rest (sep : pystr) (rest : list pystr) : pystr :=
  match rest with
  | [] => []
  | _ => sep ++ join sep rest
  end.

(** The first character of a string, [0] for the empty string. *)
Definition first_char (s : pystr) : N := hd 0%N s.

(** [s[:n]] *)
Definition upto (n : nat) (s : pystr) : pystr := take n s.

(** [s[a:b]] for [0 <= a <= b] *)
Definition slice (a b : nat) (s : pystr) : pystr := take (b - a) (drop a s).

(** [l[-n:]] for [n > 0]: the last [n] items, all of them when there are
    fewer. *)
Definition last_n {A} (n : nat) (l : list A) : list A :=
  drop (length l - n) l.

(** [str(i)] for a non-negative integer: its decimal digits. *)
Fixpoint digits_go (fuel : nat) (n : N) (acc : pystr) : pystr :=
  match fuel with
  | O => acc
  | S fuel' =>
      let acc' := (48 + n mod 10)%N :: acc in
      if (n <? 10)%N then acc' else digits_go fuel' (n / 10)%N acc'
  end.

Definition str_of_nat (n : nat) : pystr :=
  digits_go (S n) (N.of_nat n) [].

End PyStr.
Import PyStr.


(* ================================================================== *)
(** * [config.py]: the profile record [CV_DATA] *)
(* ================================================================== *)

Record PersonalInfo := {
  pi_name : pystr;
  pi_title : pystr;
  pi_experience_years : pystr;
  pi_location : pystr;
  pi_expertise : pystr }.

Record Contacts := {
  c_email : pystr;
  c_telegram : pystr;
  c_availability : pystr }.

Record WorkEntry := {
  w_company : pystr;
  w_period : pystr;
  w_position : pystr;
  w_highlights : list pystr }.

Record Skills := {
  sk_models : list pystr;
  sk_frameworks : list pystr;
  sk_infra : list pystr }.

Record Education := {
  ed_university : pystr;
  ed_degree : pystr;
  ed_period : pystr }.

Record CVData := {
  personal_info : PersonalInfo;
  contacts : Contacts;
  work_experience : list WorkEntry;
  skills : Skills;
  education : Education }.

Definition CV_DATA : CVData := Eval vm_compute in
  {| personal_info :=
       {| pi_name := py "Фирдавс Файзуллаев";
          pi_title := py "AI/ML Engineer | Архитектор LLM-систем";
          pi_experience_years := py "5+";
          pi_location := py "Москва";
          pi_expertise := py "Production LLM, RAG, мультиагентные системы" |};
     contacts :=
       {| c_email := py "firdavs.fayzullaev@gmail.com";
          c_telegram := py "@FirdavsAIDev";
          c_availability :=
            py "Открыт для AI/ML проектов и технического лидерства" |};
     work_experience :=
       [ {| w_company := py "AI Dynamics";
            w_period := py "Февраль 2024 — Октябрь 2024";
            w_position := py "AI/ML Engineer";
            w_highlights :=
              [ py "Advanced Multi-Modal RAG Platform";
                py "Autonomous Agent Network";
                py "Real-time Voice AI" ] |};
         {| w_company := py "TechForward Solutions";
            w_period := py "Март 2022 — Январь 2024";
            w_position := py "ML Engineer";
            w_highlights :=
              [ py "Enterprise Knowledge Management";
                py "Financial Document Intelligence";
                py "Conversational AI Platform" ] |};
         {| w_company := py "Analytics Pro";
            w_period := py "Сентябрь 2020 — Февраль 2022";
            w_position := py "Data Scientist";
            w_highlights :=
              [ py "Predictive Analytics";
                py "NLP Classification";
                py "Recommendation Engine" ] |} ];
     skills :=
       {| sk_models :=
            [py "Llama"; py "DeepSeek"; py "Qwen"; py "Claude"; py "GPT"];
          sk_frameworks :=
            [py "LangChain"; py "LangGraph"; py "CrewAI"; py "AutoGen";
             py "DSPy"];
          sk_infra :=
            [py "FastAPI"; py "Docker"; py "Kubernetes"; py "vLLM";
             py "TGI"; py "AWS"; py "GCP"] |};
     education :=
       {| ed_university := py "РУДН";
          ed_degree := py "Прикладная информатика";
          ed_period := py "2018–2022" |} |}.

(* ================================================================== *)
(** * The collaborators of the memory manager *)
(* ================================================================== *)

(** [Retrieved]: a document of a collection with its relevance score. *)
Record Retrieved := { text : pystr; score : float }.

(** A Chroma collection: the stored fragments, as [(id, document)], in
    insertion order. The embeddings are the store's own business. *)
Definition Collection := list (pystr * pystr).

(** [col.count()] *)
Definition count (col : Collection) : nat := length col.

(** [col.add(documents=docs, ids=ids)] *)
Definition add (col : Collection) (docs ids : list pystr) : Collection :=
  col ++ combine ids docs.

(** One hit of an episodic search: the dict [r] with its optional
    ["memory"] entry and its [str(r)]. *)
Record Mem0Hit := { hit_memory : option pystr; hit_repr : pystr }.

(** [r.get("memory", str(r))] *)
Definition hit_text (r : Mem0Hit) : pystr :=
  default (hit_repr r) (hit_memory r).

(** The three outcomes of [_init_mem0]. *)
Inductive Mem0Kind := platform | oss | none.

(** The calls that leave the repository. Each returns [None] when the
    call raises.
    - [chroma_query col q n]: [col.query(query_texts=[q], n_results=n)],
      giving [documents[0]] and [distances[0]];
    - [mem0_add c msgs uid]: [c.add(messages, user_id=uid)] with the
      (role, content) pairs, giving the client's next state;
    - [mem0_search c q uid limit]: [c.search(q, user_id=uid[, limit=k])],
      giving the list of hits (the ["results"] entry for the platform
      client, empty when it is absent);
    - [generate_content prompt]: [model.generate_content(prompt).text],
      [Some None] when the text is [None]. *)
Class Backends := {
  Mem0 : Type;
  chroma_query : Collection -> pystr -> nat -> option (list pystr * list float);
  mem0_add : Mem0 -> list (pystr * pystr) -> pystr -> option Mem0;
  mem0_search : Mem0 -> pystr -> pystr -> option nat -> option (list Mem0Hit);
  generate_content : pystr -> option (option pystr) }.

(** One entry of the short-term history: [{"q": message, "a": response}]. *)
Record Turn := { q : pystr; a : pystr }.

(** The state of a [MemoryManager]. [mem0] is the client, [None] when
    episodic memory is disabled. *)
Record MemoryManager `{Backends} := {
  mem0_kind : Mem0Kind;
  mem0 : option Mem0;
  dialog : gmap (list N) (list Turn);
  kb_col : Collection;
  cv_col : Collection }.

(* ================================================================== *)
(** * [memory_manager.py]: [MemoryManager] *)
(* ================================================================== *)

(** The fixed strings of [get_relevant_context]. *)
Definition HDR_CV : pystr := Eval vm_compute in
  py "=== ДАННЫЕ ИЗ CV ФИРДАВСА ===".
Definition HDR_KB : pystr := Eval vm_compute in
  NL ++ py "=== ДОПОЛНИТЕЛЬНЫЕ ДОКУМЕНТЫ ===".
Definition HDR_EP : pystr := Eval vm_compute in
  NL ++ py "=== ИСТОРИЯ ДИАЛОГА (mem0) ===".
Definition HDR_TAIL : pystr := Eval vm_compute in
  NL ++ py "=== НЕДАВНИЕ СООБЩЕНИЯ ===".
Definition BULLET : pystr := Eval vm_compute in py "• ".
Definition NO_CONTEXT : pystr := Eval vm_compute in py "Контекст не найден.".

(** The score thresholds of the two searches: [(1-dist) > 0.3] and
    [(1-dist) > 0.2]. *)
Definition kb_keep (s : float) : bool := PrimFloat.ltb 0.3%float s.
Definition cv_keep (s : float) : bool := PrimFloat.ltb 0.2%float s.

(** [[Retrieved(text=d, score=1-dist) for d, dist in zip(docs, dists)
     if keep(1-dist)]] *)
Definition retrieved_above (keep : float -> bool)
    (docs : list pystr) (dists : list float) : list Retrieved :=
  List.map (fun p => {| text := fst p; score := PrimFloat.sub 1%float (snd p) |})
    (List.filter (fun p => keep (PrimFloat.sub 1%float (snd p)))
       (combine docs dists)).

Section MemoryManager.
Context `{Backends}.

(** [add_conversation_memory(self, user_id, message, response)].
    [setdefault] and [append] act on the list held by the dict; the
    slice [hist[-15:]] then replaces it. A failing [mem0.add] is logged
    and leaves the client as it was. *)
Definition add_conversation_memory (self : MemoryManager)
    (user_id message response : pystr) : MemoryManager :=
  let hist := default [] (dialog self !! user_id)
              ++ [{| q := message; a := response |}] in
  let dialog1 := <[user_id := hist]> (dialog self) in
  let dialog2 :=
    if 15 <? length hist
    then <[user_id := last_n 15 hist]> dialog1
    else dialog1 in
  let mem0' :=
    match mem0 self with
    | Some client =>
        let messages := [(py "user", message); (py "assistant", response)] in
        match mem0_add client messages user_id with
        | Some client' => Some client'
        | None => Some client
        end
    | None => None
    end in
  {| mem0_kind := mem0_kind self;
     mem0 := mem0';
     dialog := dialog2;
     kb_col := kb_col self;
     cv_col := cv_col self |}.

(** [_mem0_search(self, query, user_id, k)] *)
Definition _mem0_search (self : MemoryManager)
    (query user_id : pystr) (k : nat) : list pystr :=
  match mem0 self with
  | None => []
  | Some client =>
      match mem0_kind self with
      | platform =>
          match mem0_search client query user_id (Some k) with
          | Some results => take k (List.map hit_text results)
          | None => []
          end
      | _ =>
          match mem0_search client query user_id None with
          | Some results => List.map hit_text (take k results)
          | None => []
          end
      end
  end.

(** [_kb_search(self, query, k)] *)
Definition _kb_search (self : MemoryManager) (query : pystr) (k : nat)
    : list Retrieved :=
  if count (kb_col self) =? 0 then []
  else
    match chroma_query (kb_col self) query (min k (count (kb_col self))) with
    | Some (docs, dists) => retrieved_above kb_keep docs dists
    | None => []
    end.

(** [_cv_search(self, query, k)] *)
Definition _cv_search (self : MemoryManager) (query : pystr) (k : nat)
    : list Retrieved :=
  if count (cv_col self) =? 0 then []
  else
    match chroma_query (cv_col self) query (min k (count (cv_col self))) with
    | Some (docs, dists) => retrieved_above cv_keep docs dists
    | None => []
    end.

(** The recent messages of [get_relevant_context]:
    [f"User: {item['q']}\nAssistant: {item['a'][:200]}"] for the last
    three turns of the user. *)
Definition dialog_tail (self : MemoryManager) (user_id : pystr)
    : list pystr :=
  List.map
    (fun item =>
       py "User: " ++ q item ++ NL ++ py "Assistant: " ++ upto 200 (a item))
    (last_n 3 (default [] (dialog self !! user_id))).

(** The [parts] list of [get_relevant_context], from the four result
    lists. *)
Definition context_parts (ep : list pystr) (kb cv : list Retrieved)
    (tail : list pystr) : list pystr :=
  (match cv with
   | [] => []
   | _ => HDR_CV :: List.map (fun x => BULLET ++ strip (text x)) cv
   end)
  ++ (match kb with
      | [] => []
      | _ => HDR_KB
             :: List.map (fun x => BULLET ++ upto 300 (strip (text x)))
                  (take 5 kb)
      end)
  ++ (match ep with
      | [] => []
      | _ => HDR_EP :: List.map (fun x => BULLET ++ strip x) ep
      end)
  ++ (match tail with
      | [] => []
      | _ => HDR_TAIL :: tail
      end).

(** ["\n".join(parts) if parts else "Контекст не найден."] *)
Definition render_context (parts : list pystr) : pystr :=
  match parts with
  | [] => NO_CONTEXT
  | _ => join NL parts
  end.

(** [get_relevant_context(self, query, user_id, k_ep=5, k_kb=8, k_cv=6)] *)
Definition get_relevant_context_k (self : MemoryManager)
    (query user_id : pystr) (k_ep k_kb k_cv : nat) : pystr :=
  let ep := _mem0_search self query user_id k_ep in
  let kb := _kb_search self query k_kb in
  let cv := _cv_search self query k_cv in
  let tail := dialog_tail self user_id in
  render_context (context_parts ep kb cv tail).

Definition get_relevant_context (self : MemoryManager)
    (query user_id : pystr) : pystr :=
  get_relevant_context_k self query user_id 5 8 6.

(** ** The CV indexer *)

(** The fragments of one work-experience entry, each with its id. *)
Definition cv_work_fragments (i : nat) (w : WorkEntry)
    : list (pystr * pystr) :=
  [ (py "Фирдавс работал в " ++ w_company w ++ py " на позиции "
       ++ w_position w ++ py " в период " ++ w_period w ++ py ". "
       ++ py "Ключевые проекты: " ++ join (py ", ") (w_highlights w)
       ++ py ".",
     py "cv_work_" ++ str_of_nat i ++ py "_full");
    (w_company w ++ py ": " ++ w_position w ++ py " (" ++ w_period w
       ++ py ")",
     py "cv_work_" ++ str_of_nat i ++ py "_brief") ]
  ++ imap
       (fun j highlight =>
          (py "В " ++ w_company w ++ py " Фирдавс работал над: "
             ++ highlight,
           py "cv_work_" ++ str_of_nat i ++ py "_hl_" ++ str_of_nat j))
       (w_highlights w).

Definition achievements : list pystr :=
  [ py "Фирдавс развернул 15+ production AI-ботов для бизнеса";
    py "Системы Фирдавса обрабатывают 500K+ запросов в день с latency < 2 секунд";
    py "Фирдавс снижает затраты на AI на 80% через локальный деплой моделей";
    py "У Фирдавса дома лаборатория с RTX 4090 и 128GB RAM для экспериментов";
    py "Фирдавс достиг качества MOS 4.2/5 в voice cloning технологиях";
    py "Фирдавс создал zero-shot voice cloning бота на Chatterbox";
    py "Фирдавс специалист по RAG системам с персистентной памятью Mem0/Zep";
    py "Фирдавс работает в Voximplant над AI-ассистентом для 15K+ бизнес-клиентов" ].

(** The [(document, id)] pairs [_index_cv_thoroughly] builds, in the
    order of its [docs.append] / [ids.append] pairs. *)
Definition cv_fragments (data : CVData) : list (pystr * pystr) :=
  let pi := personal_info data in
  let c := contacts data in
  let sk := skills data in
  let ed := education data in
  [ (py "Фирдавс Файзуллаев - " ++ pi_title pi ++ py ". Опыт: "
       ++ pi_experience_years pi ++ py " лет в AI/ML. "
       ++ py "Локация: " ++ pi_location pi ++ py ". Специализация: "
       ++ pi_expertise pi ++ py ".",
     py "cv_personal_1");
    (py "Имя: Фирдавс Файзуллаев. Должность: AI/ML Engineer и архитектор LLM-систем. "
       ++ py "Экспертиза в " ++ pi_expertise pi ++ py ". Базируется в Москве.",
     py "cv_personal_2");
    (py "Контакты Фирдавса: Email " ++ c_email c ++ py ", Telegram "
       ++ c_telegram c ++ py ". " ++ c_availability c,
     py "cv_contacts_1");
    (py "Для связи с Фирдавсом Файзуллаевым: почта " ++ c_email c
       ++ py " или телеграм " ++ c_telegram c,
     py "cv_contacts_2") ]
  ++ concat (imap cv_work_fragments (work_experience data))
  ++ [ (py "Фирдавс работает с моделями: " ++ join (py ", ") (sk_models sk)
          ++ py ". "
          ++ py "Особенно силен в Llama, DeepSeek, Qwen для локального деплоя.",
        py "cv_skills_models");
       (py "Фреймворки которыми владеет Фирдавс: "
          ++ join (py ", ") (sk_frameworks sk) ++ py ". "
          ++ py "Эксперт в LangChain и LangGraph для построения агентских систем.",
        py "cv_skills_frameworks");
       (py "Инфраструктурный стек Фирдавса: " ++ join (py ", ") (sk_infra sk)
          ++ py ". "
          ++ py "Умеет разворачивать ML системы в Kubernetes, оптимизировать через vLLM.",
        py "cv_skills_infra");
       (py "Полный список технологий Фирдавса: "
          ++ join (py ", ") (sk_models sk ++ sk_frameworks sk ++ sk_infra sk),
        py "cv_skills_all");
       (py "Образование Фирдавса: " ++ ed_university ed ++ py ", специальность "
          ++ ed_degree ed ++ py ", " ++ ed_period ed,
        py "cv_education") ]
  ++ imap (fun i achievement =>
             (achievement, py "cv_achievement_" ++ str_of_nat i))
       achievements.

Definition test_queries : list pystr :=
  [py "опыт работы"; py "контакты"; py "навыки"; py "voice AI"; py "LLM"].

(** The check after indexing: every test query is run with
    [n_results=2]; the results are only logged. [false] when one of the
    queries raises. *)
Definition cv_self_check (col : Collection) : bool :=
  forallb
    (fun q => match chroma_query col q 2 with Some _ => true | None => false end)
    test_queries.

Definition set_cv_col (self : MemoryManager) (col : Collection)
    : MemoryManager :=
  {| mem0_kind := mem0_kind self;
     mem0 := mem0 self;
     dialog := dialog self;
     kb_col := kb_col self;
     cv_col := col |}.

(** [_index_cv_thoroughly(self)] over the profile [data]: the manager
    after the call, and whether the call returned ([false] when a query
    of the closing check raised, after the fragments were added). *)
Definition index_cv (data : CVData) (self : MemoryManager)
    : MemoryManager * bool :=
  if 0 <? count (cv_col self) then (self, true)
  else
    let entries := cv_fragments data in
    let docs := List.map fst entries in
    let ids := List.map snd entries in
    match docs with
    | [] => (self, true)
    | _ =>
        let col := add (cv_col self) docs ids in
        (set_cv_col self col, cv_self_check col)
    end.

Definition _index_cv_thoroughly (self : MemoryManager)
    : MemoryManager * bool :=
  index_cv CV_DATA self.

(** ** The chunking utility *)

(** The [while start < len(text)] loop of [_chunk_texts] for one text:
    the [(chunk, id)] pairs appended and the next [idx]. The loop body
    runs at most [fuel] times. *)
Fixpoint chunk_while (fuel : nat) (text prefix : pystr)
    (chunk_chars step start idx : nat) : list (pystr * pystr) * nat :=
  match fuel with
  | O => ([], idx)
  | S fuel' =>
      if start <? len text then
        let chunk := slice start (start + chunk_chars) text in
        if 50 <? len chunk then
          let r := chunk_while fuel' text prefix chunk_chars step
                     (start + step) (idx + 1) in
          ((chunk, prefix ++ py "_" ++ str_of_nat idx) :: fst r, snd r)
        else
          chunk_while fuel' text prefix chunk_chars step (start + step) idx
      else ([], idx)
  end.

(** The white-space normalisation [" ".join(raw.split())]; a [raw] of
    [None] counts as the empty string. *)
Definition normalize (raw : pystr) : pystr := join (py " ") (split raw).

(** The [for raw in texts] loop of [_chunk_texts]. [start] advances by
    at least 100 in every turn of the inner loop, so [len(text)] turns
    are enough for it to end. *)
Fixpoint chunk_for (texts : list pystr) (prefix : pystr)
    (chunk_chars overlap idx : nat) : list (pystr * pystr) :=
  match texts with
  | [] => []
  | raw :: texts' =>
      let text := normalize raw in
      match text with
      | [] => chunk_for texts' prefix chunk_chars overlap idx
      | _ =>
          let step := max 100 (chunk_chars - overlap) in
          let r := chunk_while (len text) text prefix chunk_chars step 0 idx in
          fst r ++ chunk_for texts' prefix chunk_chars overlap (snd r)
      end
  end.

(** [_chunk_texts(self, texts, prefix, chunk_chars=800, overlap=200)]:
    the pair [(docs, ids)]. *)
Definition _chunk_texts_with (texts : list pystr) (prefix : pystr)
    (chunk_chars overlap : nat) : list pystr * list pystr :=
  let entries := chunk_for texts prefix chunk_chars overlap 1 in
  (List.map fst entries, List.map snd entries).

Definition _chunk_texts (texts : list pystr) (prefix : pystr)
    : list pystr * list pystr :=
  _chunk_texts_with texts prefix 800 200.

End MemoryManager.

(* ================================================================== *)
(** * [ai_agent.py]: [FirdavsAIAgent.generate_response] *)
(* ================================================================== *)

Definition FALLBACK_EMPTY : pystr := Eval vm_compute in
  py "Хм, что-то пошло не так. Давай я лучше расскажу про опыт Фирдавса в AI?".
Definition FALLBACK_ERROR : pystr := Eval vm_compute in
  py "Упс, технические неполадки 🤔 Попробуй спросить еще раз?".

(** The f-string [SYSTEM_PROMPT]. *)
Definition SYSTEM_PROMPT (today context user_message : pystr) : pystr :=
  py "Ты личный AI-ассистент Фирдавса Файзуллаева — опытного AI/ML инженера.
Твоя задача — помогать людям узнать о его навыках, опыте и проектах.

СТИЛЬ ОБЩЕНИЯ:
- Будь дружелюбным и естественным, как будто рассказываешь о талантливом коллеге
- Используй разговорные обороты: 'кстати', 'между прочим', 'вообще', 'на самом деле'
- Показывай энтузиазм когда говоришь о крутых проектах или достижениях
- НЕ начинай каждый ответ с 'Конечно!', 'Отлично!' или других шаблонных фраз
- Варьируй структуру ответов - не всегда делай списки, иногда просто рассказывай
- Можешь использовать эмодзи, но в меру (1-2 на сообщение максимум)

ВАЖНЫЕ ПРАВИЛА:
- Опирайся на факты из контекста CV и базы знаний, но подавай их живо и интересно
- Если чего-то не знаешь — честно скажи и предложи рассказать что-то другое
- Добавляй контекст и объяснения: 'Это особенно впечатляет, потому что...'
- При упоминании технических достижений объясняй, почему это круто для бизнеса
- Упоминай конкретные цифры и метрики из CV когда это уместно
- НЕ придумывай факты, которых нет в контексте

Сегодня: " ++ today ++ py "

КОНТЕКСТ О ФИРДАВСЕ:
" ++ context ++ py "

ВОПРОС ПОЛЬЗОВАТЕЛЯ:
" ++ user_message ++ py "

ТВОЙ ОТВЕТ (естественный и информативный):".

Section Agent.
Context `{Backends}.

(** The [try] block of [generate_response]: the reply text for the
    outcome of the backend call. *)
Definition reply_text (outcome : option (option pystr)) : pystr :=
  match outcome with
  | Some resp_text =>
      let text := strip (default [] resp_text) in
      match text with
      | [] => FALLBACK_EMPTY
      | _ => text
      end
  | None => FALLBACK_ERROR
  end.

(** [generate_response(self, user_message, user_id)], with the date
    string [today] read from the clock: the reply and the memory after
    the exchange was recorded. *)
Definition generate_response (memory : MemoryManager)
    (today user_message user_id : pystr) : pystr * MemoryManager :=
  let context := get_relevant_context memory user_message user_id in
  let text :=
    reply_text (generate_content (SYSTEM_PROMPT today context user_message)) in
  (text, add_conversation_memory memory user_id user_message text).

End Agent.

(* ================================================================== *)
(** * [utils/user_prefs.py] *)
(* ================================================================== *)

Module UserPrefs.

(** A JSON value held in a preference record or passed as a keyword
    argument. *)
Inductive pyval :=
| VNone
| VStr (s : pystr)
| VInt (z : Z)
| VBool (b : bool).

#[global] Instance pyval_eq_dec : EqDecision pyval.
Proof. solve_decision. Defined.

(** A preference record, and the parsed content of the file. *)
Abbreviation prefs := (gmap (list N) pyval) (only parsing).
Abbreviation db_t := (gmap (list N) (gmap (list N) pyval)) (only parsing).

(** The file at [_PATH]: absent, holding text that is not JSON, or
    holding a database. *)
Inductive file :=
| Missing
| Corrupt
| Valid (db : db_t).

Definition k_lang : pystr := Eval vm_compute in py "lang".
Definition k_voice : pystr := Eval vm_compute in py "voice".
Definition k_style : pystr := Eval vm_compute in py "style".

Definition _DEFAULT : prefs :=
  <[k_lang := VStr (py "ru-RU")]>
    (<[k_voice := VStr (py "ru-RU-Wavenet-D")]>
       (<[k_style := VStr (py "neutral")]> ∅)).

(** [str(user_id)] *)
Definition str_of_int (z : Z) : pystr :=
  match z with
  | Zneg p => py "-" ++ str_of_nat (Pos.to_nat p)
  | _ => str_of_nat (Z.to_nat z)
  end.

(** [_load()]: the database read and the file afterwards (an absent
    file is created holding [{}]). *)
Definition _load (f : file) : db_t * file :=
  match f with
  | Missing => (∅, Valid ∅)
  | Corrupt => (∅, Corrupt)
  | Valid db => (db, f)
  end.

(** [{**_DEFAULT, **rec}] *)
Definition with_defaults (rec : prefs) : prefs := rec ∪ _DEFAULT.

(** [get(user_id)] *)
Definition get (f : file) (user_id : Z) : prefs * file :=
  let '(db, f') := _load f in
  (with_defaults (default ∅ (db !! str_of_int user_id)), f').

(** [{k: v for k, v in kwargs.items() if v is not None}] *)
Definition not_none (kwargs : prefs) : prefs :=
  filter (fun kv => kv.2 ≠ VNone) kwargs.

(** [set(user_id, **kwargs)] *)
Definition set (f : file) (user_id : Z) (kwargs : prefs) : prefs * file :=
  let '(db, _) := _load f in
  let cur := with_defaults (default ∅ (db !! str_of_int user_id)) in
  let cur := not_none kwargs ∪ cur in
  (cur, Valid (<[str_of_int user_id := cur]> db)).

(** The three fields of a preference record. *)
Definition FIELDS : list pystr := [k_lang; k_voice; k_style].

(** The record the file holds for a user, empty when it holds none. *)
Definition stored (f : file) (user_id : Z) : prefs :=
  default ∅ ((_load f).1 !! str_of_int user_id).

End UserPrefs.

(* ================================================================== *)
(** * Auxiliary definitions of the statements *)
(* ================================================================== *)

(** The parts a result list contributes: nothing when it is empty, else
    the header followed by its lines. *)
Definition section_parts (header : pystr) (lines : list pystr) : list pystr :=
  match lines with
  | [] => []
  | _ => header :: lines
  end.

(** Every header starts with ['='] or with a line break; the sentinel
    starts with a letter. *)
Definition header_start (c : N) : Prop := c = 61%N \/ c = 10%N.

(** The number of parts a result list contributes. *)
Definition section_size {A} (results : list A) : nat :=
  match results with
  | [] => 0
  | _ => S (length results)
  end.

(** A sequence of [add_conversation_memory] calls, each given as
    [(user_id, message, response)], run in order. *)
Definition add_all `{Backends} (self : MemoryManager)
    (calls : list (pystr * pystr * pystr)) : MemoryManager :=
  fold_left
    (fun s call => add_conversation_memory s call.1.1 call.1.2 call.2)
    calls self.

(** The turns a sequence of calls holds for one user, in call order. *)
Definition turns_of (user_id : pystr) (calls : list (pystr * pystr * pystr))
    : list Turn :=
  List.map (fun call => {| q := call.1.2; a := call.2 |})
    (List.filter (fun call => bool_decide (call.1.1 = user_id)) calls).

(** The short-term history of a user, empty when there is none. *)
Definition history `{Backends} (self : MemoryManager) (user_id : pystr)
    : list Turn :=
  default [] (dialog self !! user_id).

(** The generation backend failed: the call raised, or it gave no text
    or only white space. *)
Definition generation_failed (outcome : option (option pystr)) : Prop :=
  outcome = None
  \/ exists resp_text,
       outcome = Some resp_text /\ strip (default [] resp_text) = [].

(** What [generate_response] returns on that failure. *)
Definition fallback_for (outcome : option (option pystr)) : pystr :=
  match outcome with
  | None => FALLBACK_ERROR
  | Some _ => FALLBACK_EMPTY
  end.

(** The [k]-th window of the chunking loop: [text[start:start+chunk_chars]]
    at [start = k * step]. It is a windowed fragment of the text when
    [k * step < len(text)]. *)
Definition window (text : pystr) (chunk_chars step k : nat) : pystr :=
  slice (k * step) (k * step + chunk_chars) text.

(** The chunks of one raw text with the default sizes: the [docs] of
    [_chunk_texts([raw], prefix)]. *)
Definition chunks_of (raw prefix : pystr) : list pystr :=
  (_chunk_texts [raw] prefix).1.

(* ================================================================== *)
(** * Auxiliary definitions of the further properties *)
(* ================================================================== *)

(** A string that does not start with white space. *)
Definition starts_clean (s : pystr) : Prop :=
  match s with
  | [] => True
  | c :: _ => isspace c = false
  end.

(** A string with no white space at either end. *)
Definition trimmed (s : pystr) : Prop := starts_clean s /\ starts_clean (rev s).

(** No two neighbouring characters are both white space. *)
Fixpoint single_spaced (s : pystr) : bool :=
  match s with
  | c :: (d :: _) as rest => negb (isspace c && isspace d) && single_spaced rest
  | _ => true
  end.

(** The characters of a string that are not white space. *)
Definition visible (s : pystr) : pystr :=
  List.filter (fun c => negb (isspace c)) s.

(** The number a string of decimal digits stands for. *)
Definition digits_value (s : pystr) : N :=
  fold_left (fun v d => (10 * v + (d - 48))%N) s 0%N.

(** A word of [split]: not empty and free of white space. *)
Definition clean_word (w : pystr) : Prop :=
  w <> [] /\ Forall (fun c => isspace c = false) w.

(** The id [_chunk_texts] gives the chunk numbered [idx]:
    [f"{prefix}_{idx}"]. *)
Definition chunk_id (prefix : pystr) (idx : nat) : pystr :=
  prefix ++ py "_" ++ str_of_nat idx.

(** The three kinds of fragment of a work-experience entry. *)
Inductive WorkPart :=
| WFull
| WBrief
| WHighlight (j : nat).

(** The id of the fragment of kind [part] of the entry numbered [i]:
    [cv_work_{i}_full], [cv_work_{i}_brief], [cv_work_{i}_hl_{j}]. *)
Definition work_id (key : nat * WorkPart) : pystr :=
  py "cv_work_" ++ str_of_nat key.1
  ++ match key.2 with
     | WFull => py "_full"
     | WBrief => py "_brief"
     | WHighlight j => py "_hl_" ++ str_of_nat j
     end.

(** The kinds of the fragments of the entries numbered from [i] on, in
    the order of the indexer. *)
Fixpoint work_keys (i : nat) (entries : list WorkEntry)
    : list (nat * WorkPart) :=
  match entries with
  | [] => []
  | w :: entries' =>
      ((i, WFull) :: (i, WBrief)
       :: List.map (fun j => (i, WHighlight j)) (seq 0 (length (w_highlights w))))
      ++ work_keys (S i) entries'
  end.

(** The ids the indexer gives apart from those of the work entries. *)
Definition cv_fixed_ids : list pystr :=
  [ py "cv_personal_1"; py "cv_personal_2"; py "cv_contacts_1";
    py "cv_contacts_2"; py "cv_skills_models"; py "cv_skills_frameworks";
    py "cv_skills_infra"; py "cv_skills_all"; py "cv_education";
    py "cv_achievement_0"; py "cv_achievement_1"; py "cv_achievement_2";
    py "cv_achievement_3"; py "cv_achievement_4"; py "cv_achievement_5";
    py "cv_achievement_6"; py "cv_achievement_7" ].

(** ** [_init_mem0] *)

(** The [mem0] package as [_init_mem0] meets it: whether it can be
    imported, [MemoryClient(api_key=...)] and [Memory.from_config] for
    the Gemini key and model, each [None] when it raises. *)
Class Mem0Library `{Backends} := {
  mem0_installed : bool;
  MemoryClient : pystr -> option Mem0;
  Memory_from_config : pystr -> pystr -> option Mem0 }.

(** [a or b] on optional strings: the first that is neither [None] nor
    empty. *)
Definition str_or (a b : option pystr) : option pystr :=
  match a with
  | Some (_ :: _) => a
  | _ => b
  end.

(** [_init_mem0()], for the values of [settings.MEM0_API_KEY], the
    environment's [MEM0_API_KEY], [settings.GEMINI_API_KEY] and
    [settings.GEMINI_MODEL]: the ["kind"] and the ["client"]. *)
Definition _init_mem0 `{Mem0Library}
    (settings_key env_key : option pystr) (gemini_key gemini_model : pystr)
    : Mem0Kind * option Mem0 :=
  if negb mem0_installed then (none, None)
  else
    let platform_try :=
      match str_or settings_key env_key with
      | Some (c :: key) => MemoryClient (c :: key)
      | _ => None
      end in
    match platform_try with
    | Some client => (platform, Some client)
    | None =>
        match gemini_key with
        | [] => (none, None)
        | _ =>
            match Memory_from_config gemini_key gemini_model with
            | Some client => (oss, Some client)
            | None => (none, None)
            end
        end
    end.

(* ================================================================== *)
(** * [i18n/tts_support.py] *)
(* ================================================================== *)

(** [s.startswith(p)] *)
Fixpoint startswith (p s : pystr) : bool :=
  match p, s with
  | [], _ => true
  | c :: p', d :: s' => (c =? d)%N && startswith p' s'
  | _ :: _, [] => false
  end.

(** [needle in hay], for strings *)
Fixpoint contains (needle hay : pystr) : bool :=
  startswith needle hay
  || match hay with
     | [] => false
     | _ :: hay' => contains needle hay'
     end.

Module TtsSupport.

Definition RU : pystr := Eval vm_compute in py "ru-RU".
Definition EN : pystr := Eval vm_compute in py "en-US".
Definition DIRECT : pystr := Eval vm_compute in py "direct".
Definition TRANSLATE : pystr := Eval vm_compute in py "translate_for_tts".

Definition SUPPORTED_TTS_LANGS : gset (list N) := {[ RU; EN ]}.

Definition VOICES_BY_LANG : gmap (list N) (list (list N)) :=
  <[RU := [py "ru-RU-Wavenet-D"; py "ru-RU-Wavenet-C"]]>
    (<[EN := [py "en-US-Wavenet-D"; py "en-US-Wavenet-F"]]> ∅).

Record TtsPlan := {
  lang : pystr;
  voice : option pystr;
  strategy : pystr;
  target_lang : option pystr }.

(** [(VOICES_BY_LANG.get(lang) or [None])[0]] *)
Definition first_voice (lang : pystr) : option pystr :=
  match VOICES_BY_LANG !! lang with
  | Some (v :: _) => Some v
  | _ => None
  end.

(** [normalize_tts_request(user_lang, user_voice)]; an argument is
    [None] for Python's [None]. *)
Definition normalize_tts_request (user_lang user_voice : option pystr)
    : TtsPlan :=
  let lang := match user_lang with
              | Some (c :: l) => c :: l
              | _ => RU
              end in
  if bool_decide (lang ∈ SUPPORTED_TTS_LANGS) then
    let voice :=
      match user_voice with
      | Some (c :: v) =>
          if contains lang (c :: v) then Some (c :: v) else first_voice lang
      | _ => first_voice lang
      end in
    {| lang := lang; voice := voice; strategy := DIRECT; target_lang := None |}
  else
    {| lang := RU; voice := first_voice RU; strategy := TRANSLATE;
       target_lang := Some RU |}.

End TtsSupport.

(* ================================================================== *)
(** * [telegram_bot.py]: the preference buttons of [button_callback] *)
(* ================================================================== *)

(** What follows the first [sep] in [s]: [s.split(sep, 1)[1]], [None]
    when [s] has no [sep] (the index would be out of range). *)
Fixpoint after_sep (sep : N) (s : pystr) : option pystr :=
  match s with
  | [] => None
  | c :: s' => if (c =? sep)%N then Some s' else after_sep sep s'
  end.

Module Bot.
Import UserPrefs.

Definition SUPPORTED_LANGS : list pystr :=
  [py "ru-RU"; py "uz-UZ"; py "en-US"].

(** The styles [button_callback] accepts. *)
Definition STYLES : list pystr := [py "neutral"; py "calm"; py "cheerful"].

Definition SET_LANG : pystr := Eval vm_compute in py "set_lang:".
Definition SET_VOICE : pystr := Eval vm_compute in py "set_voice:".
Definition SET_STYLE : pystr := Eval vm_compute in py "set_style:".

(** The three preference branches of [button_callback], for the
    callback data [data] of the user [user_id]: the text the message is
    edited to and the preference file afterwards. [None] when the data
    starts with none of the three prefixes and the later branches of the
    handler take over. *)
Definition prefs_callback (f : file) (user_id : Z) (data : pystr)
    : option (pystr * file) :=
  if startswith SET_LANG data then
    match after_sep 58 data with
    | None => None
    | Some lang =>
        if bool_decide (lang ∈ SUPPORTED_LANGS) then
          let f1 := (set f user_id {[ k_lang := VStr lang ]}).2 in
          let f2 :=
            match TtsSupport.VOICES_BY_LANG !! lang with
            | None => (set f1 user_id {[ k_voice := VNone ]}).2
            | Some _ => f1
            end in
          if bool_decide (lang = py "uz-UZ") then
            Some (py "Язык установлен: uz-UZ.
Текст будет на узбекском. Голос — переведён на русский для лучшей озвучки. Можно сменить /voice или /style.",
                  f2)
          else
            Some (py "Язык установлен: " ++ lang
                    ++ py ". Теперь выберите голос: /voice",
                  f2)
        else Some (py "Неподдерживаемый язык", f)
    end
  else if startswith SET_VOICE data then
    match after_sep 58 data with
    | None => None
    | Some voice =>
        Some (py "Голос установлен: " ++ voice,
              (set f user_id {[ k_voice := VStr voice ]}).2)
    end
  else if startswith SET_STYLE data then
    match after_sep 58 data with
    | None => None
    | Some style =>
        if bool_decide (style ∈ STYLES) then
          Some (py "Готово: стиль = " ++ style,
                (set f user_id {[ k_style := VStr style ]}).2)
        else Some (py "Неподдерживаемый стиль", f)
    end
  else None.

End Bot.

(* ================================================================== *)
(** * [api/telegram-webhook.py]: [_gen_answer] *)
(* ================================================================== *)

Module Webhook.

Definition NOT_CONFIGURED : pystr := Eval vm_compute in
  py "Сервис временно не сконфигурирован. Нужен GEMINI_API_KEY.".
Definition NO_ANSWER : pystr := Eval vm_compute in
  py "Не удалось сгенерировать ответ.".
Definition FAILED : pystr := Eval vm_compute in
  py "Упс, не получилось ответить сейчас.".

(** The [prompt] of [_gen_answer]. *)
Definition answer_prompt (user_message : pystr) : pystr :=
  py "Ты дружелюбный ассистент. Отвечай коротко и по делу, на русском.

" ++ py "Вопрос: " ++ user_message ++ py "

Ответ:".

(** [_gen_answer(user_message, user_id)]; [configured] tells whether
    [_gemini_model] was set up at start. *)
Definition _gen_answer `{Backends} (configured : bool)
    (user_message user_id : pystr) : pystr :=
  if negb configured then NOT_CONFIGURED
  else
    match generate_content (answer_prompt user_message) with
    | Some resp_text =>
        let text := strip (default [] resp_text) in
        match text with
        | [] => NO_ANSWER
        | _ => text
        end
    | None => FAILED
    end.

End Webhook.

(* ================================================================== *)
(** * [speech.py]: [GoogleSpeechService._synthesize_sync] *)
(* ================================================================== *)

Module Speech.

(** The text-to-speech service and [str.upper]:
    [tts_synthesize text language_code voice ogg speaking_rate pitch] is
    [tts_client.synthesize_speech(...)] for the plain text, the voice
    [VoiceSelectionParams(language_code, name=voice)] and the audio
    configuration with OGG_OPUS ([ogg = true]) or MP3 encoding; [inl e]
    when the call raises [e]. *)
Class TtsBackend := {
  audio : Type;
  tts_error : Type;
  py_upper : pystr -> pystr;
  tts_synthesize :
    pystr -> pystr -> pystr -> bool -> float -> float -> tts_error + audio }.

(** How [_synthesize_sync] ends: with the audio, with the error of the
    last voice tried, or with [RuntimeError("TTS synthesis failed: no
    voice candidates succeeded")]. *)
Inductive SynthResult `{TtsBackend} :=
| Audio (a : audio)
| Raised (e : tts_error)
| NoCandidate.

Definition FALLBACK_VOICES : list pystr :=
  [py "ru-RU-Neural2-D"; py "ru-RU-Wavenet-D"; py "ru-RU-Wavenet-C";
   py "ru-RU-Standard-A"].

(** [safe_text]: the stripped text, cut to 1200 characters and an
    ellipsis when it is longer. *)
Definition safe_text (text : pystr) : pystr :=
  let stripped := strip text in
  if 1200 <? len stripped then upto 1200 stripped ++ py "…" else stripped.

(** [[v for v in candidate_voices if v]] *)
Definition candidate_voices (voice_name : pystr) : list pystr :=
  List.filter (fun v => match v with [] => false | _ => true end)
    (voice_name :: FALLBACK_VOICES).

(** The [for candidate in ...] loop and what follows it; [last_err] is
    the error of the voice tried last. *)
Fixpoint try_voices `{TtsBackend} (call : pystr -> tts_error + audio)
    (candidates : list pystr) (last_err : option tts_error) : SynthResult :=
  match candidates with
  | [] =>
      match last_err with
      | Some e => Raised e
      | None => NoCandidate
      end
  | candidate :: rest =>
      match call candidate with
      | inr a => Audio a
      | inl e => try_voices call rest (Some e)
      end
  end.

(** [_synthesize_sync(self, text, language_code, voice_name,
    speaking_rate, pitch, encoding)] *)
Definition _synthesize_sync `{TtsBackend}
    (text language_code voice_name : pystr) (speaking_rate pitch : float)
    (encoding : pystr) : SynthResult :=
  let ogg := bool_decide (py_upper encoding = py "OGG_OPUS") in
  try_voices
    (fun candidate =>
       tts_synthesize (safe_text text) language_code candidate ogg
         speaking_rate pitch)
    (candidate_voices voice_name) None.

(** A voice for which the call raises. *)
Definition fails `{TtsBackend} (call : pystr -> tts_error + audio)
    (v : pystr) : Prop :=
  exists e, call v = inl e.

(** A service that knows the Wavenet voices only, for evaluating the
    model. *)
Definition wavenet_only : TtsBackend :=
  {| audio := pystr;
     tts_error := pystr;
     py_upper := fun s => s;
     tts_synthesize := fun text _ v _ _ _ =>
       if contains (py "Wavenet") v then inr (v ++ py ":" ++ text)
       else inl (py "unknown voice " ++ v) |}.

End Speech.

(* ================================================================== *)
(** * [services/translate.py]: [translate_via_gemini] *)
(* ================================================================== *)

Module Translate.

(** [s.split(sep)[0]]: what comes before the first [sep] in [s], all of
    [s] when it has none. *)
Fixpoint before_sep (sep : N) (s : pystr) : pystr :=
  match s with
  | [] => []
  | c :: s' => if (c =? sep)%N then [] else c :: before_sep sep s'
  end.

Definition HYPHEN : N := 45%N.

(** [target_lang or "ru-RU"] *)
Definition asked_lang (target_lang : option pystr) : pystr :=
  match target_lang with
  | Some (c :: l) => c :: l
  | _ => py "ru-RU"
  end.

(** The [prompt] of [translate_via_gemini]. *)
Definition translate_prompt (tl text : pystr) : pystr :=
  py "Переведи аккуратно и естественно на язык '" ++ tl
  ++ py "'. Верни только перевод, без пояснений:

" ++ text.

(** [translate_via_gemini(text, target_lang)]. [generate prompt] is
    [model.generate_content(prompt).text] of the model the function
    builds: [None] when the call or the reading of [.text] raises,
    [Some None] when the text is [None]. The result is [None] when the
    function raises. *)
Definition translate_via_gemini (generate : pystr -> option (option pystr))
    (text : pystr) (target_lang : option pystr) : option pystr :=
  let tl := before_sep HYPHEN (asked_lang target_lang) in
  match generate (translate_prompt tl text) with
  | None => None
  | Some out_text => Some (strip (default [] out_text))
  end.

End Translate.

(* ================================================================== *)
(** * A concrete scenario, for evaluating the model *)
(* ================================================================== *)

Module Scenario.

(** Backends that never fail: every stored document is at distance 0.5
    of every query, the episodic client is the log of what was added to
    it, and the generation backend raises. *)
Definition backends : Backends :=
  {| Mem0 := list (pystr * list (pystr * pystr));
     chroma_query := fun col _ n =>
       Some (List.map snd (take n col),
             List.map (fun _ => 0.5%float) (take n col));
     mem0_add := fun client messages user_id =>
       Some (client ++ [(user_id, messages)]);
     mem0_search := fun client _ user_id _ =>
       Some (List.map
               (fun e => {| hit_memory := Some (concat (List.map snd e.2));
                            hit_repr := [] |})
               (List.filter (fun e => bool_decide (e.1 = user_id)) client));
     generate_content := fun _ => None |}.

(** The same, with a generation backend that answers with white space
    only. *)
Definition quiet : Backends :=
  {| Mem0 := @Mem0 backends;
     chroma_query := @chroma_query backends;
     mem0_add := @mem0_add backends;
     mem0_search := @mem0_search backends;
     generate_content := fun _ => Some (Some (py "   ")) |}.

(** A manager as [__init__] leaves it before indexing, without episodic
    memory. *)
Definition fresh : @MemoryManager backends :=
  @Build_MemoryManager backends none None ∅ [] [].

(** A manager with one document in each collection, an episodic client
    holding one exchange of user ["7"], and one turn in that user's
    short-term history. *)
Definition stocked : @MemoryManager backends :=
  @Build_MemoryManager backends platform
    (Some [(py "7", [(py "user", py "hi"); (py "assistant", py "yo")])])
    {[ py "7" := [{| q := py "hi"; a := py "yo" |}] ]}
    [(py "doc_1", py " kb text ")]
    [(py "cv_contacts_1", py "Email: x@y.com, Telegram: @z")].

(** A text of [n] distinct characters, none of them white space. *)
Definition sample_text (n : nat) : pystr := List.map N.of_nat (seq 1000 n).

(** A manager whose collections hold one document of 400 characters
    each. *)
Definition verbose : @MemoryManager backends :=
  @Build_MemoryManager backends none None ∅
    [(py "doc_1", sample_text 400)]
    [(py "cv_1", sample_text 400)].

(** The stocked manager over the quiet backends. *)
Definition stocked_quiet : @MemoryManager quiet :=
  @Build_MemoryManager quiet platform
    (Some [(py "7", [(py "user", py "hi"); (py "assistant", py "yo")])])
    {[ py "7" := [{| q := py "hi"; a := py "yo" |}] ]}
    [(py "doc_1", py " kb text ")]
    [(py "cv_contacts_1", py "Email: x@y.com, Telegram: @z")].

End Scenario.

(* ================================================================== *)
(** * Sanity checks of the string model *)
(* ================================================================== *)

Example py_ascii : py "a b" = [97; 32; 98]%N.
Proof. reflexivity. Qed.

Example py_cyrillic : py "Кот•" = [1050; 1086; 1090; 8226]%N.
Proof. reflexivity. Qed.

Example py_emoji : py "🤔" = [129300]%N.
Proof. reflexivity. Qed.

Example strip_ex : strip (py "  a b
 ") = py "a b".
Proof. reflexivity. Qed.

Example split_ex : split (py "  ab   c
d ") = [py "ab"; py "c"; py "d"].
Proof. reflexivity. Qed.

Example join_ex : join (py " ") [py "ab"; py "c"] = py "ab c".
Proof. reflexivity. Qed.

Example str_of_nat_ex : str_of_nat 120 = py "120" /\ str_of_nat 0 = py "0".
Proof. split; reflexivity. Qed.

Example last_n_ex :
  last_n 3 [1; 2; 3; 4; 5] = [3; 4; 5] /\ last_n 3 [1; 2] = [1; 2].
Proof. split; reflexivity. Qed.

(* ================================================================== *)
(** * Joining parts *)
(* ================================================================== *)

Lemma join_cons sep p rest : join sep (p :: rest) = p ++ join_rest sep rest.
Proof. destruct rest; simpl; [by rewrite app_nil_r | done]. Qed.

Lemma join_app sep (l1 l2 : list pystr) :
  l1 <> [] -> l2 <> [] ->
  join sep (l1 ++ l2) = join sep l1 ++ sep ++ join sep l2.
Proof.
  induction l1 as [|p l1 IH]; [done|]. intros _ Hl2.
  destruct l1 as [|p' l1].
  - destruct l2; [done|]. reflexivity.
  - change (join sep ((p :: p' :: l1) ++ l2))
      with (p ++ sep ++ join sep ((p' :: l1) ++ l2)).
    rewrite IH by done.
    change (join sep (p :: p' :: l1)) with (p ++ sep ++ join sep (p' :: l1)).
    by rewrite <- !app_assoc.
Qed.

Lemma join_app_section sep h (l1 l2 : list pystr) :
  l2 <> [] ->
  join sep ((h :: l1) ++ l2) = h ++ (join_rest sep l1 ++ sep) ++ join sep l2.
Proof.
  intros Hl2. rewrite join_app by done. rewrite join_cons.
  by rewrite <- !app_assoc.
Qed.

Lemma first_char_join sep p rest :
  p <> [] -> first_char (join sep (p :: rest)) = first_char p.
Proof. intros Hp. rewrite join_cons. by destruct p. Qed.

Lemma join_In sep (parts : list pystr) p :
  In p parts -> exists pre post, join sep parts = pre ++ p ++ post.
Proof.
  induction parts as [|p0 rest IH]; [done|].
  intros [->|Hin]; rewrite join_cons.
  - by exists [], (join_rest sep rest).
  - destruct (IH Hin) as (pre & post & Heq).
    destruct rest as [|p1 rest]; [done|].
    exists (p0 ++ sep ++ pre), post. unfold join_rest. rewrite Heq.
    by rewrite <- !app_assoc.
Qed.

(* ================================================================== *)
(** * Context assembly *)
(* ================================================================== *)

Lemma context_parts_sections ep kb cv tail :
  context_parts ep kb cv tail =
    section_parts HDR_CV (List.map (fun x => BULLET ++ strip (text x)) cv)
    ++ section_parts HDR_KB
         (List.map (fun x => BULLET ++ upto 300 (strip (text x))) (take 5 kb))
    ++ section_parts HDR_EP (List.map (fun x => BULLET ++ strip x) ep)
    ++ section_parts HDR_TAIL tail.
Proof. unfold context_parts. by destruct cv, kb, ep, tail. Qed.

Lemma context_parts_nil ep kb cv tail :
  context_parts ep kb cv tail = [] <->
  cv = [] /\ kb = [] /\ ep = [] /\ tail = [].
Proof.
  unfold context_parts.
  destruct cv, kb, ep, tail; cbn [app]; split; try done;
    intros (? & ? & ? & ?); done.
Qed.

Lemma context_first_char ep kb cv tail :
  context_parts ep kb cv tail <> [] ->
  header_start (first_char (render_context (context_parts ep kb cv tail))).
Proof.
  intros Hne. unfold context_parts in *.
  destruct cv as [|x cv]; [destruct kb as [|y kb];
    [destruct ep as [|z ep]; [destruct tail as [|t tail]; [done|]|]|]|];
    cbn [app]; unfold render_context; rewrite first_char_join by done;
    unfold header_start; cbn; auto.
Qed.

Section ContextAssembly.
Context `{Backends}.

(** C1. [get_relevant_context] returns the sentinel
    ["Контекст не найден."] exactly when the CV search, the KB search,
    the episodic search and the dialogue tail are all empty, and it
    never returns the empty string. *)
Theorem get_relevant_context_sentinel
    (self : MemoryManager) (query user_id : pystr) :
  (get_relevant_context self query user_id = NO_CONTEXT <->
     _cv_search self query 6 = [] /\ _kb_search self query 8 = []
     /\ _mem0_search self query user_id 5 = []
     /\ dialog_tail self user_id = [])
  /\ get_relevant_context self query user_id <> [].
Proof.
  unfold get_relevant_context, get_relevant_context_k.
  set (ep := _mem0_search _ _ _ _). set (kb := _kb_search _ _ _).
  set (cv := _cv_search _ _ _). set (tail := dialog_tail _ _).
  destruct (decide (context_parts ep kb cv tail = [])) as [Hnil|Hne].
  - rewrite Hnil. apply context_parts_nil in Hnil. by split.
  - pose proof (context_first_char ep kb cv tail Hne) as Hc.
    split; [split|].
    + intros Heq. rewrite Heq in Hc. by destruct Hc.
    + intros Hall. by apply context_parts_nil in Hall.
    + intros Heq. rewrite Heq in Hc. by destruct Hc.
Qed.

End ContextAssembly.

Lemma section_parts_In header lines p :
  In p (section_parts header lines) -> p = header \/ In p lines.
Proof. destruct lines; [done|]. intros [<-|Hin]; auto. Qed.

Lemma section_parts_header header lines :
  lines <> [] -> In header (section_parts header lines).
Proof. destruct lines; [done|]. intros _. by left. Qed.

Lemma section_parts_length {A} header (f : A -> pystr) (results : list A) :
  length (section_parts header (List.map f results)) = section_size results.
Proof. destruct results; [done|]. cbn. by rewrite length_map. Qed.

Lemma bullet_line_first_char {A} (f : A -> pystr) (results : list A) p :
  In p (List.map (fun x => BULLET ++ f x) results) -> first_char p = 8226%N.
Proof. rewrite in_map_iff. by intros (x & <- & _). Qed.

Lemma sections_rendered (cvl kbl epl tl : list pystr) :
  cvl <> [] -> kbl <> [] -> epl <> [] -> tl <> [] ->
  join NL (section_parts HDR_CV cvl ++ section_parts HDR_KB kbl
           ++ section_parts HDR_EP epl ++ section_parts HDR_TAIL tl)
  = HDR_CV ++ NL ++ join NL cvl ++ NL
    ++ HDR_KB ++ NL ++ join NL kbl ++ NL
    ++ HDR_EP ++ NL ++ join NL epl ++ NL
    ++ HDR_TAIL ++ NL ++ join NL tl.
Proof.
  intros Hcv Hkb Hep Htl.
  destruct cvl as [|c cvl]; [done|]. destruct kbl as [|k kbl]; [done|].
  destruct epl as [|e epl]; [done|]. destruct tl as [|t tl]; [done|].
  unfold section_parts.
  rewrite (join_app_section NL HDR_CV) by done.
  rewrite (join_app_section NL HDR_KB) by done.
  rewrite (join_app_section NL HDR_EP) by done.
  rewrite join_cons. unfold join_rest. by rewrite <- !app_assoc.
Qed.

Section ContextSections.
Context `{Backends}.

Lemma dialog_tail_first_char (self : MemoryManager) user_id p :
  In p (dialog_tail self user_id) -> first_char p = 85%N.
Proof. unfold dialog_tail. rewrite in_map_iff. by intros (x & <- & _). Qed.

(** C2. With results from all four sources the assembled text is the CV
    header, the CV lines, the KB header, the KB lines, the episodic
    header, its lines, the recent-messages header and the recent
    messages, in this order, one per line. For any query, a header is
    among the parts of the context exactly when its result list is not
    empty (the text starts with the CV header exactly when there are CV
    results), and an empty list contributes no part at all. *)
Theorem context_sections_ordered
    (self : MemoryManager) (query user_id : pystr) :
  let cv := _cv_search self query 6 in
  let kb := _kb_search self query 8 in
  let ep := _mem0_search self query user_id 5 in
  let tail := dialog_tail self user_id in
  let parts := context_parts ep kb cv tail in
  get_relevant_context self query user_id = render_context parts
  /\ (cv <> [] -> kb <> [] -> ep <> [] -> tail <> [] ->
      get_relevant_context self query user_id
      = HDR_CV ++ NL
        ++ join NL (List.map (fun x => BULLET ++ strip (text x)) cv) ++ NL
        ++ HDR_KB ++ NL
        ++ join NL (List.map (fun x => BULLET ++ upto 300 (strip (text x)))
                      (take 5 kb)) ++ NL
        ++ HDR_EP ++ NL
        ++ join NL (List.map (fun x => BULLET ++ strip x) ep) ++ NL
        ++ HDR_TAIL ++ NL ++ join NL tail)
  /\ (HDR_CV `prefix_of` get_relevant_context self query user_id
      <-> cv <> [])
  /\ (In HDR_CV parts <-> cv <> [])
  /\ (In HDR_KB parts <-> kb <> [])
  /\ (In HDR_EP parts <-> ep <> [])
  /\ (In HDR_TAIL parts <-> tail <> [])
  /\ length parts
     = section_size cv + section_size (take 5 kb) + section_size ep
       + section_size tail.
Proof.
  intros cv kb ep tail parts. split; [done|]. split.
  { intros Hcv Hkb Hep Htl.
    unfold get_relevant_context, get_relevant_context_k.
    fold ep kb cv tail.
    assert (Hne : context_parts ep kb cv tail <> []).
    { rewrite context_parts_nil. by intros (? & _). }
    unfold render_context.
    destruct (context_parts ep kb cv tail) as [|p0 ps] eqn:Hparts; [done|].
    rewrite <- Hparts, context_parts_sections.
    rewrite sections_rendered; [done| | | |done].
    - by destruct cv.
    - by destruct kb.
    - by destruct ep. }
  split.
  { unfold get_relevant_context, get_relevant_context_k.
    fold ep kb cv tail. split.
    - intros [rest Hrest] Hnil.
      destruct (decide (context_parts ep kb cv tail = [])) as [Hparts|Hparts].
      + rewrite Hparts in Hrest. done.
      + assert (Hc : first_char (render_context (context_parts ep kb cv tail))
                     = 61%N) by by rewrite Hrest.
        revert Hc. unfold context_parts. rewrite Hnil.
        destruct kb as [|y kb']; [destruct ep as [|z ep'];
          [destruct tail as [|t tail']; [done|]|]|];
          cbn [app]; unfold render_context; by rewrite first_char_join.
    - intros Hcv. unfold context_parts.
      destruct cv as [|x cv']; [done|]. cbn [app]. unfold render_context.
      rewrite join_cons. by eexists. }
  assert (Hcvl : forall p,
    In p (section_parts HDR_CV (List.map (fun x => BULLET ++ strip (text x)) cv)) ->
    p = HDR_CV \/ first_char p = 8226%N).
  { intros p [->|Hin]%section_parts_In; [by left|right].
    by apply bullet_line_first_char in Hin. }
  assert (Hkbl : forall p,
    In p (section_parts HDR_KB
            (List.map (fun x => BULLET ++ upto 300 (strip (text x))) (take 5 kb))) ->
    p = HDR_KB \/ first_char p = 8226%N).
  { intros p [->|Hin]%section_parts_In; [by left|right].
    by apply (bullet_line_first_char (fun x => upto 300 (strip (text x)))) in Hin. }
  assert (Hepl : forall p,
    In p (section_parts HDR_EP (List.map (fun x => BULLET ++ strip x) ep)) ->
    p = HDR_EP \/ first_char p = 8226%N).
  { intros p [->|Hin]%section_parts_In; [by left|right].
    by apply bullet_line_first_char in Hin. }
  assert (Htll : forall p,
    In p (section_parts HDR_TAIL tail) -> p = HDR_TAIL \/ first_char p = 85%N).
  { intros p [->|Hin]%section_parts_In; [by left|right].
    by apply dialog_tail_first_char in Hin. }
  assert (Hin : forall p, In p parts <->
    In p (section_parts HDR_CV (List.map (fun x => BULLET ++ strip (text x)) cv))
    \/ In p (section_parts HDR_KB
               (List.map (fun x => BULLET ++ upto 300 (strip (text x))) (take 5 kb)))
    \/ In p (section_parts HDR_EP (List.map (fun x => BULLET ++ strip x) ep))
    \/ In p (section_parts HDR_TAIL tail)).
  { intros p. unfold parts. rewrite context_parts_sections.
    by rewrite !in_app_iff. }
  repeat split.
  - intros [Hp|[Hp|[Hp|Hp]]]%Hin.
    + intros Hnil. by rewrite Hnil in Hp.
    + by destruct (Hkbl _ Hp).
    + by destruct (Hepl _ Hp).
    + by destruct (Htll _ Hp).
  - intros Hne. apply Hin. left. apply section_parts_header. by destruct cv.
  - intros [Hp|[Hp|[Hp|Hp]]]%Hin.
    + by destruct (Hcvl _ Hp).
    + intros Hnil. by rewrite Hnil in Hp.
    + by destruct (Hepl _ Hp).
    + by destruct (Htll _ Hp).
  - intros Hne. apply Hin. right; left. apply section_parts_header.
    by destruct kb.
  - intros [Hp|[Hp|[Hp|Hp]]]%Hin.
    + by destruct (Hcvl _ Hp).
    + by destruct (Hkbl _ Hp).
    + intros Hnil. by rewrite Hnil in Hp.
    + by destruct (Htll _ Hp).
  - intros Hne. apply Hin. right; right; left. apply section_parts_header.
    by destruct ep.
  - intros [Hp|[Hp|[Hp|Hp]]]%Hin.
    + by destruct (Hcvl _ Hp).
    + by destruct (Hkbl _ Hp).
    + by destruct (Hepl _ Hp).
    + intros Hnil. by rewrite Hnil in Hp.
  - intros Hne. apply Hin. right; right; right. by apply section_parts_header.
  - unfold parts. rewrite context_parts_sections, !length_app.
    rewrite !section_parts_length.
    rewrite <- (section_parts_length HDR_TAIL id tail), map_id. lia.
Qed.

End ContextSections.

(** The hypotheses of the ordering hold for the stocked manager. *)
Lemma context_sections_ordered_witness :
  @get_relevant_context Scenario.backends Scenario.stocked (py "q") (py "7")
  = HDR_CV ++ NL ++ py "• Email: x@y.com, Telegram: @z" ++ NL
    ++ HDR_KB ++ NL ++ py "• kb text" ++ NL
    ++ HDR_EP ++ NL ++ py "• hiyo" ++ NL
    ++ HDR_TAIL ++ NL ++ py "User: hi" ++ NL ++ py "Assistant: yo".
Proof.
  apply (proj1 (proj2 (@context_sections_ordered Scenario.backends
                         Scenario.stocked (py "q") (py "7"))));
    by vm_compute.
Defined.

Example context_fresh :
  @get_relevant_context Scenario.backends Scenario.fresh (py "q") (py "7")
  = NO_CONTEXT.
Proof. by vm_compute. Qed.

Section ContextLines.
Context `{Backends}.

(** C9. In the assembled context the line of a KB result is the bullet
    followed by the first 300 characters of its stripped text (302
    characters at most; only the first five KB results are rendered),
    while the line of a CV result is the bullet followed by its whole
    stripped text. These lines and the headers are all the parts of the
    context, and every part occurs in the assembled text. *)
Theorem kb_lines_truncated_cv_lines_verbatim
    (self : MemoryManager) (query user_id : pystr) :
  let cv := _cv_search self query 6 in
  let kb := _kb_search self query 8 in
  let ep := _mem0_search self query user_id 5 in
  let tail := dialog_tail self user_id in
  let parts := context_parts ep kb cv tail in
  parts
  = section_parts HDR_CV (List.map (fun x => BULLET ++ strip (text x)) cv)
    ++ section_parts HDR_KB
         (List.map (fun x => BULLET ++ take 300 (strip (text x))) (take 5 kb))
    ++ section_parts HDR_EP (List.map (fun x => BULLET ++ strip x) ep)
    ++ section_parts HDR_TAIL tail
  /\ (forall x, In x cv ->
        In (BULLET ++ strip (text x)) parts
        /\ len (BULLET ++ strip (text x)) = 2 + len (strip (text x)))
  /\ (forall x, In x (take 5 kb) ->
        In (BULLET ++ take 300 (strip (text x))) parts
        /\ len (BULLET ++ take 300 (strip (text x)))
           = 2 + min 300 (len (strip (text x))))
  /\ (forall p, In p parts ->
        exists pre post,
          get_relevant_context self query user_id = pre ++ p ++ post).
Proof.
  intros cv kb ep tail parts.
  assert (Heq : parts
    = section_parts HDR_CV (List.map (fun x => BULLET ++ strip (text x)) cv)
      ++ section_parts HDR_KB
           (List.map (fun x => BULLET ++ take 300 (strip (text x))) (take 5 kb))
      ++ section_parts HDR_EP (List.map (fun x => BULLET ++ strip x) ep)
      ++ section_parts HDR_TAIL tail)
    by apply context_parts_sections.
  split; [exact Heq|]. split; [|split].
  - intros x Hx. split; [|done].
    rewrite Heq. apply in_or_app. left.
    destruct cv as [|x0 cv']; [done|]. right.
    apply in_map_iff. by exists x.
  - intros x Hx. split.
    + rewrite Heq. apply in_or_app. right. apply in_or_app. left.
      destruct (take 5 kb) as [|x0 kb']; [done|]. right.
      apply in_map_iff. by exists x.
    + unfold len. rewrite length_app, length_take. cbn. lia.
  - intros p Hp. unfold get_relevant_context, get_relevant_context_k.
    fold ep kb cv tail parts. unfold render_context.
    destruct parts as [|p0 ps] eqn:Hparts; [done|].
    by apply join_In.
Qed.

End ContextLines.

(** Documents of 400 characters: the KB line holds the first 300 of
    them, the CV line all of them. *)
Lemma kb_lines_truncated_cv_lines_verbatim_witness :
  (exists pre post,
     @get_relevant_context Scenario.backends Scenario.verbose (py "q") (py "7")
     = pre ++ (BULLET ++ take 300 (Scenario.sample_text 400)) ++ post)
  /\ (exists pre post,
        @get_relevant_context Scenario.backends Scenario.verbose (py "q") (py "7")
        = pre ++ (BULLET ++ Scenario.sample_text 400) ++ post).
Proof.
  pose proof (@kb_lines_truncated_cv_lines_verbatim Scenario.backends
                Scenario.verbose (py "q") (py "7")) as (_ & Hcv & Hkb & Hin).
  split; apply Hin.
  - apply (Hkb {| text := Scenario.sample_text 400; score := 0.5%float |}).
    left. by vm_compute.
  - apply (Hcv {| text := Scenario.sample_text 400; score := 0.5%float |}).
    left. by vm_compute.
Defined.

Example context_parts_long_texts :
  context_parts []
    [{| text := repeat 97%N 400; score := 0.5%float |}]
    [{| text := repeat 98%N 400; score := 0.5%float |}] []
  = [HDR_CV; BULLET ++ repeat 98%N 400; HDR_KB; BULLET ++ repeat 97%N 300].
Proof. by vm_compute. Qed.

(* ================================================================== *)
(** * The CV indexer *)
(* ================================================================== *)

Lemma cv_fragments_length data :
  length (cv_fragments data)
  = 17 + length (concat (imap cv_work_fragments (work_experience data))).
Proof.
  unfold cv_fragments.
  rewrite !length_app, length_imap. cbn [length achievements]. lia.
Qed.

Lemma cv_fragments_CV_DATA : length (cv_fragments CV_DATA) = 32.
Proof. by vm_compute. Qed.

Section Indexer.
Context `{Backends}.

Lemma index_cv_populated data (self : MemoryManager) :
  0 < count (cv_col self) -> index_cv data self = (self, true).
Proof.
  intros Hpos. unfold index_cv.
  by destruct (Nat.ltb_spec 0 (count (cv_col self))); [|lia].
Qed.

Lemma index_cv_empty data (self : MemoryManager) :
  count (cv_col self) = 0 ->
  cv_col (index_cv data self).1
  = combine (List.map snd (cv_fragments data)) (List.map fst (cv_fragments data))
  /\ count (cv_col (index_cv data self).1) = length (cv_fragments data).
Proof.
  intros Hzero. unfold index_cv. rewrite Hzero. cbn [Nat.ltb Nat.leb].
  assert (Hcol : cv_col self = []) by by destruct (cv_col self).
  destruct (List.map fst (cv_fragments data)) as [|d ds] eqn:Hdocs.
  { pose proof (cv_fragments_length data) as Hlen.
    apply (f_equal length) in Hdocs. rewrite length_map in Hdocs.
    rewrite Hlen in Hdocs. discriminate Hdocs. }
  rewrite <- Hdocs. cbn [fst cv_col set_cv_col]. unfold add. rewrite Hcol.
  cbn [app]. split; [done|].
  unfold count. by rewrite length_combine, !length_map, Nat.min_id.
Qed.

(** C3. On a populated CV collection [_index_cv_thoroughly] returns at
    once and changes nothing. On an empty one it stores the 32
    fragments of the profile, and a second run then leaves the manager,
    and so the fragment count, as the first run left it. *)
Theorem index_cv_idempotent (self : MemoryManager) :
  (0 < count (cv_col self) -> _index_cv_thoroughly self = (self, true))
  /\ (count (cv_col self) = 0 ->
      count (cv_col (_index_cv_thoroughly self).1) = 32
      /\ _index_cv_thoroughly (_index_cv_thoroughly self).1
         = ((_index_cv_thoroughly self).1, true)
      /\ count (cv_col (_index_cv_thoroughly (_index_cv_thoroughly self).1).1)
         = count (cv_col (_index_cv_thoroughly self).1)).
Proof.
  unfold _index_cv_thoroughly. split; [apply index_cv_populated|].
  intros Hzero.
  destruct (index_cv_empty CV_DATA self Hzero) as [_ Hcount].
  rewrite cv_fragments_CV_DATA in Hcount.
  assert (Hagain : index_cv CV_DATA (index_cv CV_DATA self).1
                   = ((index_cv CV_DATA self).1, true)).
  { apply index_cv_populated. lia. }
  split; [done|]. split; [done|]. by rewrite Hagain.
Qed.

End Indexer.

(** The indexer on the fresh manager (empty collection) and on the
    stocked one (one fragment stored). *)
Lemma index_cv_idempotent_witness :
  (count (cv_col (@_index_cv_thoroughly Scenario.backends Scenario.fresh).1) = 32
   /\ @_index_cv_thoroughly Scenario.backends
        (@_index_cv_thoroughly Scenario.backends Scenario.fresh).1
      = ((@_index_cv_thoroughly Scenario.backends Scenario.fresh).1, true)
   /\ count (cv_col (@_index_cv_thoroughly Scenario.backends
               (@_index_cv_thoroughly Scenario.backends Scenario.fresh).1).1)
      = count (cv_col (@_index_cv_thoroughly Scenario.backends Scenario.fresh).1))
  /\ @_index_cv_thoroughly Scenario.backends Scenario.stocked
     = (Scenario.stocked, true).
Proof.
  split.
  - apply (proj2 (@index_cv_idempotent Scenario.backends Scenario.fresh)).
    reflexivity.
  - apply (proj1 (@index_cv_idempotent Scenario.backends Scenario.stocked)).
    cbn. lia.
Defined.

(** The profile's fragments carry distinct ids, the first of them
    [cv_personal_1]. *)
Example cv_fragment_ids :
  NoDup (List.map snd (cv_fragments CV_DATA))
  /\ List.map snd (take 5 (cv_fragments CV_DATA))
     = [py "cv_personal_1"; py "cv_personal_2"; py "cv_contacts_1";
        py "cv_contacts_2"; py "cv_work_0_full"].
Proof.
  split; [|by vm_compute].
  apply (bool_decide_unpack _). by vm_compute.
Qed.

(* ================================================================== *)
(** * Score filtering *)
(* ================================================================== *)

Lemma retrieved_above_In keep docs dists r :
  In r (retrieved_above keep docs dists) <->
  exists d dist,
    In (d, dist) (combine docs dists)
    /\ r = {| text := d; score := PrimFloat.sub 1%float dist |}
    /\ keep (PrimFloat.sub 1%float dist) = true.
Proof.
  unfold retrieved_above. rewrite in_map_iff. split.
  - intros ([d dist] & <- & [Hin Hkeep]%filter_In). by exists d, dist.
  - intros (d & dist & Hin & -> & Hkeep). exists (d, dist).
    split; [done|]. by apply filter_In.
Qed.

Lemma retrieved_above_score keep docs dists r :
  In r (retrieved_above keep docs dists) -> keep (score r) = true.
Proof. by intros (d & dist & _ & -> & Hkeep)%retrieved_above_In. Qed.

Section ScoreFiltering.
Context `{Backends}.

Lemma _kb_search_query (self : MemoryManager) query k docs dists :
  count (kb_col self) <> 0 ->
  chroma_query (kb_col self) query (min k (count (kb_col self)))
  = Some (docs, dists) ->
  _kb_search self query k = retrieved_above kb_keep docs dists.
Proof.
  intros Hne Hq. unfold _kb_search. rewrite Hq.
  by destruct (Nat.eqb_spec (count (kb_col self)) 0).
Qed.

Lemma _cv_search_query (self : MemoryManager) query k docs dists :
  count (cv_col self) <> 0 ->
  chroma_query (cv_col self) query (min k (count (cv_col self)))
  = Some (docs, dists) ->
  _cv_search self query k = retrieved_above cv_keep docs dists.
Proof.
  intros Hne Hq. unfold _cv_search. rewrite Hq.
  by destruct (Nat.eqb_spec (count (cv_col self)) 0).
Qed.

(** C4. A document returned by the KB query at distance [dist] is among
    the results of [_kb_search] exactly when its score [1 - dist] is
    strictly above 0.3, and a document returned by the CV query is among
    the results of [_cv_search] exactly when its score is strictly above
    0.2. A score of exactly 0.3 (KB) or 0.2 (CV) is rejected; 0.31 and
    0.21 are accepted. *)
Theorem score_thresholds_strict
    (self : MemoryManager) (query : pystr) (k : nat)
    (docs : list pystr) (dists : list float) :
  (count (kb_col self) <> 0 ->
   chroma_query (kb_col self) query (min k (count (kb_col self)))
   = Some (docs, dists) ->
   forall d dist, In (d, dist) (combine docs dists) ->
     (In {| text := d; score := PrimFloat.sub 1%float dist |}
         (_kb_search self query k)
      <-> PrimFloat.ltb 0.3%float (PrimFloat.sub 1%float dist) = true))
  /\ (count (cv_col self) <> 0 ->
      chroma_query (cv_col self) query (min k (count (cv_col self)))
      = Some (docs, dists) ->
      forall d dist, In (d, dist) (combine docs dists) ->
        (In {| text := d; score := PrimFloat.sub 1%float dist |}
            (_cv_search self query k)
         <-> PrimFloat.ltb 0.2%float (PrimFloat.sub 1%float dist) = true))
  /\ (forall r, In r (_kb_search self query k) ->
        PrimFloat.ltb 0.3%float (score r) = true)
  /\ (forall r, In r (_cv_search self query k) ->
        PrimFloat.ltb 0.2%float (score r) = true)
  /\ kb_keep 0.3%float = false /\ kb_keep 0.31%float = true
  /\ cv_keep 0.2%float = false /\ cv_keep 0.21%float = true.
Proof.
  split; [|split; [|split; [|split]]].
  - intros Hne Hq d dist Hin. rewrite (_kb_search_query _ _ _ _ _ Hne Hq).
    rewrite retrieved_above_In. split.
    + intros (d' & dist' & _ & Heq & Hkeep).
      injection Heq as _ Hs. by rewrite Hs.
    + intros Hkeep. by exists d, dist.
  - intros Hne Hq d dist Hin. rewrite (_cv_search_query _ _ _ _ _ Hne Hq).
    rewrite retrieved_above_In. split.
    + intros (d' & dist' & _ & Heq & Hkeep).
      injection Heq as _ Hs. by rewrite Hs.
    + intros Hkeep. by exists d, dist.
  - intros r. unfold _kb_search.
    destruct (count (kb_col self) =? 0); [done|].
    destruct (chroma_query _ _ _) as [[ds dd]|]; [|done].
    apply (retrieved_above_score kb_keep).
  - intros r. unfold _cv_search.
    destruct (count (cv_col self) =? 0); [done|].
    destruct (chroma_query _ _ _) as [[ds dd]|]; [|done].
    apply (retrieved_above_score cv_keep).
  - by vm_compute.
Qed.

End ScoreFiltering.

(** Distances 0.5, 0.75 and 0.9 give the scores 0.5, 0.25 and
    0.1 (rounded): the KB filter keeps the first, the CV filter the
    first two. *)
Example retrieved_above_kb :
  retrieved_above kb_keep [py "a"; py "b"; py "c"]
    [0.5%float; 0.75%float; 0.9%float]
  = [{| text := py "a"; score := 0.5%float |}].
Proof. by vm_compute. Qed.

Example retrieved_above_cv :
  retrieved_above cv_keep [py "a"; py "b"; py "c"]
    [0.5%float; 0.75%float; 0.9%float]
  = [{| text := py "a"; score := 0.5%float |};
     {| text := py "b"; score := 0.25%float |}].
Proof. by vm_compute. Qed.

(** The stocked manager's one KB document, at distance 0.5, passes the
    KB filter. *)
Lemma score_thresholds_strict_witness :
  In {| text := py " kb text "; score := PrimFloat.sub 1%float 0.5%float |}
     (@_kb_search Scenario.backends Scenario.stocked (py "q") 8)
  <-> PrimFloat.ltb 0.3%float (PrimFloat.sub 1%float 0.5%float) = true.
Proof.
  apply (proj1 (@score_thresholds_strict Scenario.backends Scenario.stocked
                  (py "q") 8 [py " kb text "] [0.5%float])).
  - by vm_compute.
  - by vm_compute.
  - left. by vm_compute.
Defined.

(* ================================================================== *)
(** * The short-term dialogue buffer *)
(* ================================================================== *)

Lemma last_n_short {A} n (l : list A) : length l <= n -> last_n n l = l.
Proof. intros Hle. unfold last_n. by replace (length l - n) with 0 by lia. Qed.

Lemma last_n_length {A} n (l : list A) : length (last_n n l) = min n (length l).
Proof. unfold last_n. rewrite length_drop. lia. Qed.

Lemma last_n_app {A} n (l l' : list A) :
  last_n n (last_n n l ++ l') = last_n n (l ++ l').
Proof.
  destruct (decide (length l <= n)) as [Hle|Hgt].
  { by rewrite (last_n_short n l). }
  unfold last_n at 1 3. rewrite !length_app, last_n_length.
  unfold last_n.
  replace (n `min` length l + length l' - n) with (length l') by lia.
  replace (length l + length l' - n)
    with ((length l - n) + length l') by lia.
  rewrite <- (drop_drop (l ++ l')).
  by rewrite (drop_app_le l l' (length l - n)) by lia.
Qed.

Lemma last_n_snoc {A} n (l : list A) x :
  last_n (S n) (l ++ [x]) = last_n n l ++ [x].
Proof.
  unfold last_n. rewrite length_app. cbn [length].
  replace (length l + 1 - S n) with (length l - n) by lia.
  by rewrite drop_app_le by lia.
Qed.

Section DialogueBuffer.
Context `{Backends}.

Lemma history_add_same (self : MemoryManager) user_id message response :
  history (add_conversation_memory self user_id message response) user_id
  = last_n 15 (history self user_id ++ [{| q := message; a := response |}]).
Proof.
  unfold history, add_conversation_memory. cbn [dialog].
  set (hist := default [] (dialog self !! user_id) ++ _).
  destruct (Nat.ltb_spec 15 (length hist)).
  - by rewrite lookup_insert_eq.
  - rewrite lookup_insert_eq. cbn. by rewrite last_n_short.
Qed.

Lemma history_add_other (self : MemoryManager) user_id user_id' message response :
  user_id <> user_id' ->
  history (add_conversation_memory self user_id message response) user_id'
  = history self user_id'.
Proof.
  intros Hne. unfold history, add_conversation_memory. cbn [dialog].
  destruct (15 <? _); by rewrite ?lookup_insert_ne.
Qed.

(** After any calls, a history that held at most 15 turns holds the last
    15 of its turns followed by the user's new ones. *)
Lemma history_add_all calls (self : MemoryManager) user_id :
  length (history self user_id) <= 15 ->
  history (add_all self calls) user_id
  = last_n 15 (history self user_id ++ turns_of user_id calls).
Proof.
  revert self. induction calls as [|[[u m] r] calls IH]; intros self Hlen.
  - cbn. by rewrite app_nil_r, last_n_short.
  - cbn [add_all fold_left fst snd]. fold (add_all (add_conversation_memory self u m r) calls).
    unfold turns_of. cbn [List.filter fst snd].
    destruct (decide (u = user_id)) as [->|Hne].
    + rewrite bool_decide_true by done. cbn [List.map fst snd].
      fold (turns_of user_id calls).
      rewrite IH; rewrite history_add_same.
      * rewrite last_n_app. by rewrite <- app_assoc.
      * rewrite last_n_length. lia.
    + rewrite bool_decide_false by done. fold (turns_of user_id calls).
      rewrite IH; rewrite history_add_other by done; done.
Qed.

(** C5. From the empty buffer of a new manager, after any sequence of
    [add_conversation_memory] calls every user's history holds at most
    15 turns: the last 15 of that user's turns, in call order. Twenty
    turns of one user leave the last 15 of them (the first five are
    dropped). *)
Theorem dialog_buffer_capped (self : MemoryManager) :
  dialog self = ∅ ->
  (forall calls user_id,
     length (history (add_all self calls) user_id) <= 15
     /\ history (add_all self calls) user_id
        = last_n 15 (turns_of user_id calls))
  /\ (forall user_id turns,
        length turns = 20 ->
        dialog (add_all self
                  (List.map (fun t => (user_id, q t, a t)) turns)) !! user_id
        = Some (drop 5 turns)).
Proof.
  intros Hempty.
  assert (Hhist : forall user_id, history self user_id = []).
  { intros u. unfold history. by rewrite Hempty, lookup_empty. }
  assert (Hall : forall calls user_id,
    history (add_all self calls) user_id = last_n 15 (turns_of user_id calls)).
  { intros calls u. rewrite history_add_all; rewrite Hhist; [done|cbn; lia]. }
  split.
  - intros calls u. split; [|done]. rewrite Hall, last_n_length. lia.
  - intros u turns Hlen.
    pose proof (Hall (List.map (fun t => (u, q t, a t)) turns) u) as Hu.
    assert (Hturns : turns_of u (List.map (fun t => (u, q t, a t)) turns) = turns).
    { unfold turns_of. clear. induction turns as [|[tq ta] turns IH]; [done|].
      cbn [List.map List.filter fst snd q a].
      rewrite bool_decide_true by done. cbn [List.map fst snd]. by f_equal. }
    rewrite Hturns in Hu. unfold last_n in Hu. rewrite Hlen in Hu.
    change (20 - 15) with 5 in Hu. unfold history in Hu.
    destruct (dialog _ !! u) as [hist|] eqn:Hlook; cbn in Hu.
    + by rewrite Hu.
    + apply (f_equal length) in Hu. rewrite length_drop in Hu. cbn in Hu. lia.
Qed.

End DialogueBuffer.

(** Twenty numbered turns of user ["7"] on the fresh manager. *)
Lemma dialog_buffer_capped_witness :
  dialog (@add_all Scenario.backends Scenario.fresh
            (List.map (fun t => (py "7", q t, a t))
               (List.map (fun i => {| q := str_of_nat i; a := py "ok" |})
                  (seq 0 20)))) !! py "7"
  = Some (drop 5 (List.map (fun i => {| q := str_of_nat i; a := py "ok" |})
                    (seq 0 20))).
Proof.
  apply (proj2 (@dialog_buffer_capped Scenario.backends Scenario.fresh
                  eq_refl)).
  reflexivity.
Defined.

Example dialog_buffer_twenty :
  List.map q
    (@history Scenario.backends
       (@add_all Scenario.backends Scenario.fresh
          (List.map (fun i => (py "7", str_of_nat i, py "ok")) (seq 0 20)))
       (py "7"))
  = List.map str_of_nat (seq 5 15).
Proof. by vm_compute. Qed.

(* ================================================================== *)
(** * Response generation *)
(* ================================================================== *)

Section GenerationFailure.
Context `{Backends}.

Lemma reply_text_failed outcome :
  generation_failed outcome -> reply_text outcome = fallback_for outcome.
Proof.
  intros [->|(resp_text & -> & Hempty)]; [done|].
  unfold reply_text. by rewrite Hempty.
Qed.

Lemma reply_text_nonempty outcome : reply_text outcome <> [].
Proof.
  destruct outcome as [resp_text|]; [|done]. unfold reply_text.
  by destruct (strip (default [] resp_text)).
Qed.

(** C6. When the generation backend raises or returns empty text,
    [generate_response] returns a fixed non-empty reply (one text for an
    exception, one for an empty answer), and the exchange is recorded
    with that reply: it is the last turn of the user's short-term
    history, and the episodic client, when there is one, was given the
    message and the reply. *)
Theorem generation_failure_fallback
    (memory : MemoryManager) (today user_message user_id : pystr) :
  let context := get_relevant_context memory user_message user_id in
  let outcome := generate_content (SYSTEM_PROMPT today context user_message) in
  let result := generate_response memory today user_message user_id in
  generation_failed outcome ->
  result.1 = fallback_for outcome
  /\ (result.1 = FALLBACK_ERROR \/ result.1 = FALLBACK_EMPTY)
  /\ result.1 <> []
  /\ result.2 = add_conversation_memory memory user_id user_message result.1
  /\ last (history result.2 user_id)
     = Some {| q := user_message; a := fallback_for outcome |}
  /\ mem0 result.2
     = match mem0 memory with
       | Some client =>
           Some (default client
                   (mem0_add client
                      [(py "user", user_message);
                       (py "assistant", fallback_for outcome)] user_id))
       | None => None
       end.
Proof.
  intros context outcome result Hfail.
  assert (Htext : result.1 = fallback_for outcome).
  { unfold result, generate_response. cbn [fst].
    by apply reply_text_failed. }
  split; [done|]. split; [|split; [|split; [done|]]].
  - rewrite Htext. destruct outcome; cbn; auto.
  - unfold result, generate_response. cbn [fst]. apply reply_text_nonempty.
  - assert (Hmem : result.2
      = add_conversation_memory memory user_id user_message
          (fallback_for outcome)).
    { rewrite <- Htext. done. }
    rewrite Hmem. split.
    + rewrite history_add_same, (last_n_snoc 14). apply last_snoc.
    + unfold add_conversation_memory. cbn [mem0].
      destruct (mem0 memory) as [client|]; [|done].
      by destruct (mem0_add client _ user_id).
Qed.

End GenerationFailure.

(** The backend of the scenario raises; the quiet one answers with
    white space. *)
Lemma generation_failure_fallback_witness :
  ((@generate_response Scenario.backends Scenario.stocked
      (py "03.11.2026") (py "кто ты?") (py "7")).1 = FALLBACK_ERROR)
  /\ ((@generate_response Scenario.quiet Scenario.stocked_quiet
         (py "03.11.2026") (py "кто ты?") (py "7")).1 = FALLBACK_EMPTY).
Proof.
  split.
  - apply (@generation_failure_fallback Scenario.backends Scenario.stocked
             (py "03.11.2026") (py "кто ты?") (py "7")).
    by left.
  - apply (@generation_failure_fallback Scenario.quiet Scenario.stocked_quiet
             (py "03.11.2026") (py "кто ты?") (py "7")).
    right. by exists (Some (py "   ")).
Defined.

Example generate_response_recorded :
  @history Scenario.backends
    (@generate_response Scenario.backends Scenario.stocked
       (py "03.11.2026") (py "кто ты?") (py "7")).2 (py "7")
  = [{| q := py "hi"; a := py "yo" |};
     {| q := py "кто ты?"; a := FALLBACK_ERROR |}].
Proof. by vm_compute. Qed.

Example reply_text_answer :
  reply_text (Some (Some (py " Привет! "))) = py "Привет!".
Proof. by vm_compute. Qed.

(* ================================================================== *)
(** * The chunking utility *)
(* ================================================================== *)

Lemma slice_length a b (s : pystr) :
  len (slice a b s) = min (b - a) (len s - a).
Proof. unfold len, slice. by rewrite length_take, length_drop. Qed.

Lemma slice_window a n (s : pystr) : slice a (a + n) s = take n (drop a s).
Proof. unfold slice. f_equal. lia. Qed.

Lemma window_length text chunk_chars step k :
  len (window text chunk_chars step k)
  = min chunk_chars (len text - k * step).
Proof.
  unfold window. rewrite slice_length. f_equal. lia.
Qed.

(** Two neighbours of a concatenation lie in one block, unless the
    first of them ends its block. *)
Lemma concat_lookup_consecutive {A} (ls : list (list A)) i x y :
  concat ls !! i = Some x -> concat ls !! S i = Some y ->
  exists l, In l ls
    /\ ((exists j, l !! j = Some x /\ l !! S j = Some y) \/ last l = Some x).
Proof.
  revert i. induction ls as [|l ls IH]; intros i Hx Hy; [done|].
  cbn [concat] in Hx, Hy.
  destruct (decide (S i < length l)) as [Hin|Hout].
  - rewrite lookup_app_l in Hx by lia. rewrite lookup_app_l in Hy by done.
    exists l. split; [by left|]. left. by exists i.
  - destruct (decide (i < length l)) as [Hlast|Hnext].
    + rewrite lookup_app_l in Hx by done.
      exists l. split; [by left|]. right. rewrite last_lookup.
      by replace (pred (length l)) with i by lia.
    + rewrite lookup_app_r in Hx by lia. rewrite lookup_app_r in Hy by lia.
      replace (S i - length l) with (S (i - length l)) in Hy by lia.
      destruct (IH _ Hx Hy) as (l' & Hl' & Hcase).
      exists l'. split; [by right|done].
Qed.

Section ChunkLoop.
Variables (text prefix : pystr) (chunk_chars step : nat).
Hypothesis chunk_chars_min : 50 < chunk_chars.
Hypothesis step_min : 50 <= step.

Let docs_from (fuel start idx : nat) : list pystr :=
  List.map fst (chunk_while fuel text prefix chunk_chars step start idx).1.

(** Once a window is too short, the loop is over. *)
Lemma chunk_while_after_short fuel start idx :
  start < len text ->
  len (slice start (start + chunk_chars) text) <= 50 ->
  chunk_while fuel text prefix chunk_chars step (start + step) idx = ([], idx).
Proof using chunk_chars_min step_min.
  intros Hlt Hshort. rewrite slice_length in Hshort.
  destruct fuel as [|fuel]; [done|]. cbn [chunk_while].
  by destruct (Nat.ltb_spec (start + step) (len text)); [lia|].
Qed.

(** The [i]-th chunk produced from [start] is the window [i] steps
    further, and it is longer than 50 characters. *)
Lemma chunk_while_lookup fuel start idx i c :
  docs_from fuel start idx !! i = Some c ->
  c = slice (start + i * step) (start + i * step + chunk_chars) text
  /\ 50 < len c /\ start + i * step < len text.
Proof using chunk_chars_min step_min.
  unfold docs_from.
  revert start idx i. induction fuel as [|fuel IH]; intros start idx i; [done|].
  cbn [chunk_while].
  destruct (Nat.ltb_spec start (len text)) as [Hlt|Hge]; [|done].
  destruct (Nat.ltb_spec 50 (len (slice start (start + chunk_chars) text)))
    as [Hlong|Hshort].
  - cbn [fst List.map]. destruct i as [|i].
    + cbn. intros [= <-]. rewrite Nat.add_0_r. auto.
    + cbn [lookup list_lookup]. intros Hc. apply IH in Hc.
      replace (start + S i * step) with (start + step + i * step) by lia.
      done.
  - by rewrite chunk_while_after_short.
Qed.

(** With fuel for the rest of the text, the window [k] steps after
    [start] is the [k]-th chunk when it is longer than 50 characters. *)
Lemma chunk_while_lookup_long fuel start idx k :
  len text - start <= fuel ->
  start + k * step < len text ->
  50 < len (slice (start + k * step) (start + k * step + chunk_chars) text) ->
  docs_from fuel start idx !! k
  = Some (slice (start + k * step) (start + k * step + chunk_chars) text).
Proof using chunk_chars_min step_min.
  unfold docs_from.
  revert start idx k.
  induction fuel as [|fuel IH]; intros start idx k Hfuel Hlt Hlong; [lia|].
  cbn [chunk_while].
  destruct (Nat.ltb_spec start (len text)) as [Hlt'|Hge]; [|lia].
  destruct (Nat.ltb_spec 50 (len (slice start (start + chunk_chars) text)))
    as [Hlong'|Hshort].
  - cbn [fst List.map]. destruct k as [|k].
    + cbn. by rewrite Nat.add_0_r.
    + cbn [lookup list_lookup].
      replace (start + S k * step) with (start + step + k * step) in * by lia.
      apply IH; [lia|done|done].
  - rewrite slice_length in Hlong, Hshort. lia.
Qed.

(** The loop ends within [len(text) - start] turns: more fuel changes
    nothing. *)
Lemma chunk_while_fuel fuel fuel' start idx :
  len text - start <= fuel -> len text - start <= fuel' ->
  chunk_while fuel text prefix chunk_chars step start idx
  = chunk_while fuel' text prefix chunk_chars step start idx.
Proof using chunk_chars_min step_min.
  revert fuel' start idx.
  induction fuel as [|fuel IH]; intros fuel' start idx Hf Hf'.
  - destruct fuel' as [|fuel']; [done|]. cbn [chunk_while].
    by destruct (Nat.ltb_spec start (len text)); [lia|].
  - destruct fuel' as [|fuel'].
    + cbn [chunk_while].
      by destruct (Nat.ltb_spec start (len text)); [lia|].
    + cbn [chunk_while].
      destruct (Nat.ltb_spec start (len text)); [|done].
      rewrite (IH fuel' (start + step) (idx + 1)) by lia.
      by rewrite (IH fuel' (start + step) idx) by lia.
Qed.

(** The counter [idx] numbers the ids; the chunks do not depend on it. *)
Lemma chunk_while_docs_idx fuel start idx idx' :
  docs_from fuel start idx = docs_from fuel start idx'.
Proof using chunk_chars_min step_min.
  unfold docs_from. revert start idx idx'.
  induction fuel as [|fuel IH]; intros start idx idx'; [done|].
  cbn [chunk_while].
  destruct (start <? len text); [|done].
  destruct (50 <? len (slice start (start + chunk_chars) text)).
  - cbn [fst List.map]. f_equal. apply IH.
  - apply IH.
Qed.

End ChunkLoop.

Lemma chunk_for_docs texts prefix idx :
  List.map fst (chunk_for texts prefix 800 200 idx)
  = concat
      (List.map
         (fun raw =>
            List.map fst
              (chunk_while (len (normalize raw)) (normalize raw) prefix
                 800 600 0 1).1)
         texts).
Proof.
  revert idx. induction texts as [|raw texts IH]; intros idx; [done|].
  cbn [chunk_for List.map concat]. change (max 100 (800 - 200)) with 600.
  destruct (normalize raw) as [|c text] eqn:Htext.
  - cbn [len length chunk_while fst List.map app]. apply IH.
  - rewrite map_app, IH. f_equal.
    apply (chunk_while_docs_idx (c :: text) prefix 800 600); lia.
Qed.

Lemma chunks_of_loop raw prefix :
  chunks_of raw prefix
  = List.map fst
      (chunk_while (len (normalize raw)) (normalize raw) prefix 800 600 0 1).1.
Proof.
  unfold chunks_of, _chunk_texts, _chunk_texts_with. cbn [fst].
  rewrite chunk_for_docs. cbn [List.map concat]. by rewrite app_nil_r.
Qed.

(** The chunks of a call are those of its texts, in order. *)
Lemma chunk_texts_docs texts prefix :
  (_chunk_texts texts prefix).1
  = concat (List.map (fun raw => chunks_of raw prefix) texts).
Proof.
  unfold _chunk_texts, _chunk_texts_with. cbn [fst].
  rewrite chunk_for_docs. f_equal. apply map_ext. intros raw.
  by rewrite chunks_of_loop.
Qed.

(** The [i]-th chunk of a text is its [i]-th window, and the chunks are
    the windows longer than 50 characters. *)
Lemma chunks_of_lookup raw prefix i c :
  chunks_of raw prefix !! i = Some c <->
  c = window (normalize raw) 800 600 i
  /\ 50 < len c /\ i * 600 < len (normalize raw).
Proof.
  rewrite chunks_of_loop. split.
  - intros Hc. apply chunk_while_lookup in Hc; [|lia|lia].
    by cbn [Nat.add] in Hc.
  - intros (-> & Hlong & Hlt).
    pose proof (chunk_while_lookup_long (normalize raw) prefix 800 600
                  ltac:(lia) ltac:(lia) (len (normalize raw)) 0 1 i) as Hc.
    cbn [Nat.add] in Hc. apply Hc; [lia|done|done].
Qed.

Lemma chunks_of_In raw prefix c :
  In c (chunks_of raw prefix) <->
  exists k, c = window (normalize raw) 800 600 k
    /\ 50 < len c /\ k * 600 < len (normalize raw).
Proof.
  rewrite <- list_elem_of_In, list_elem_of_lookup.
  split; intros (k & Hk); exists k.
  - by apply chunks_of_lookup in Hk.
  - by apply (proj2 (chunks_of_lookup raw prefix k c)).
Qed.

(** After a chunk of 800 characters the text has a further chunk. *)
Lemma chunks_of_last raw prefix c :
  last (chunks_of raw prefix) = Some c -> len c < 800.
Proof.
  rewrite last_lookup. intros Hc.
  pose proof (lookup_lt_Some _ _ _ Hc) as Hlt.
  apply chunks_of_lookup in Hc as (-> & Hlong & Hk).
  set (k := pred (length (chunks_of raw prefix))) in *.
  destruct (decide (len (window (normalize raw) 800 600 k) < 800))
    as [|Hfull]; [done|].
  rewrite window_length in Hfull.
  assert (Hnext : chunks_of raw prefix !! S k
                  = Some (window (normalize raw) 800 600 (S k))).
  { apply chunks_of_lookup. split; [done|]. rewrite window_length. lia. }
  apply lookup_lt_Some in Hnext. lia.
Qed.

(** Of two consecutive chunks of one text, what the first holds from
    its 600th character on starts the second. *)
Lemma chunks_of_overlap raw prefix i c1 c2 :
  chunks_of raw prefix !! i = Some c1 ->
  chunks_of raw prefix !! S i = Some c2 ->
  drop 600 c1 = take (len c1 - 600) c2.
Proof.
  intros (-> & _ & _)%chunks_of_lookup (-> & _ & _)%chunks_of_lookup.
  set (text := normalize raw).
  rewrite window_length. unfold window. rewrite !slice_window.
  replace (S i * 600) with (i * 600 + 600) by lia.
  rewrite <- (drop_drop text), take_take.
  set (rest := drop (i * 600) text).
  assert (Hrest : length rest = len text - i * 600)
    by apply length_drop.
  replace (drop 600 (take 800 rest)) with (take 200 (drop 600 rest))
    by (by rewrite take_drop_commute).
  destruct (decide (800 <= len text - i * 600)) as [Hfull|Hpart].
  - f_equal. lia.
  - rewrite (take_ge (drop 600 rest)) by (rewrite length_drop; lia).
    rewrite take_ge; [done|]. rewrite length_drop. lia.
Qed.

(** C8, as the code has it. A windowed fragment of a normalized text is
    among the chunks exactly when it is longer than 50 characters (a
    fragment of 50 characters or fewer is dropped); every chunk is such
    a fragment; and texts of at most 50 characters give no chunk and no
    id. *)
Theorem chunk_kept_iff_longer_than_50 (texts : list pystr) (prefix : pystr) :
  (forall raw k, In raw texts -> k * 600 < len (normalize raw) ->
     (In (window (normalize raw) 800 600 k) (_chunk_texts texts prefix).1
      <-> 50 < len (window (normalize raw) 800 600 k)))
  /\ (forall c, In c (_chunk_texts texts prefix).1 ->
        50 < len c
        /\ exists raw k, In raw texts /\ k * 600 < len (normalize raw)
             /\ c = window (normalize raw) 800 600 k)
  /\ ((forall raw, In raw texts -> len (normalize raw) <= 50) ->
      _chunk_texts texts prefix = ([], [])).
Proof.
  assert (Hin : forall c, In c (_chunk_texts texts prefix).1 <->
    exists raw, In raw texts /\ In c (chunks_of raw prefix)).
  { intros c. rewrite chunk_texts_docs, in_concat. split.
    - intros (l & (raw & <- & Hraw)%in_map_iff & Hc). by exists raw.
    - intros (raw & Hraw & Hc). exists (chunks_of raw prefix).
      split; [|done]. apply in_map_iff. by exists raw. }
  assert (Hchunk : forall c, In c (_chunk_texts texts prefix).1 ->
    50 < len c
    /\ exists raw k, In raw texts /\ k * 600 < len (normalize raw)
         /\ c = window (normalize raw) 800 600 k).
  { intros c (raw & Hraw & (k & -> & Hlong & Hk)%chunks_of_In)%Hin.
    split; [done|]. by exists raw, k. }
  split; [|split; [done|]].
  - intros raw k Hraw Hk. split.
    + by intros (Hlong & _)%Hchunk.
    + intros Hlong. apply Hin. exists raw. split; [done|].
      apply chunks_of_In. by exists k.
  - intros Hshort.
    assert (Hdocs : (_chunk_texts texts prefix).1 = []).
    { destruct ((_chunk_texts texts prefix).1) as [|c docs] eqn:Hc; [done|].
      destruct (Hchunk c) as (Hlong & raw & k & Hraw & Hk & ->); [by left|].
      rewrite window_length in Hlong. specialize (Hshort raw Hraw). lia. }
    unfold _chunk_texts, _chunk_texts_with in *. cbn [fst] in Hdocs.
    apply map_eq_nil in Hdocs. by rewrite Hdocs.
Qed.

(** A text of 900 characters: its two windows are the chunks. *)
Lemma chunk_kept_iff_longer_than_50_witness :
  In (window (normalize (Scenario.sample_text 900)) 800 600 1)
     (_chunk_texts [Scenario.sample_text 900] (py "doc")).1
  <-> 50 < len (window (normalize (Scenario.sample_text 900)) 800 600 1).
Proof.
  apply (proj1 (chunk_kept_iff_longer_than_50 [Scenario.sample_text 900]
                  (py "doc"))).
  - by left.
  - vm_compute. lia.
Defined.

(** C8 as stated fails at exactly 50 characters: the only window of a
    50-character text has 50 characters and is not among the chunks. *)
Lemma chunk_of_50_chars_dropped :
  normalize (Scenario.sample_text 50) = Scenario.sample_text 50
  /\ 0 * 600 < len (normalize (Scenario.sample_text 50))
  /\ 50 <= len (window (normalize (Scenario.sample_text 50)) 800 600 0)
  /\ _chunk_texts [Scenario.sample_text 50] (py "doc") = ([], []).
Proof.
  split; [by vm_compute|]. split; [vm_compute; lia|].
  split; [vm_compute; lia|by vm_compute].
Qed.

Example chunk_of_51_chars_kept :
  _chunk_texts [Scenario.sample_text 51] (py "doc")
  = ([Scenario.sample_text 51], [py "doc_1"]).
Proof. by vm_compute. Qed.

(** C7, as the code has it. Of two consecutive chunks of the output, the
    first of which has the full 800 characters, the last 200 characters
    of the first are the first 200 of the second. *)
Theorem chunk_overlap_after_full_chunk
    (texts : list pystr) (prefix : pystr) (i : nat) (c1 c2 : pystr) :
  (_chunk_texts texts prefix).1 !! i = Some c1 ->
  (_chunk_texts texts prefix).1 !! S i = Some c2 ->
  len c1 = 800 ->
  last_n 200 c1 = take 200 c2.
Proof.
  rewrite chunk_texts_docs. intros H1 H2 Hlen.
  destruct (concat_lookup_consecutive _ _ _ _ H1 H2)
    as (l & (raw & <- & _)%in_map_iff & [(j & Hj1 & Hj2)|Hlast]).
  - pose proof (chunks_of_overlap _ _ _ _ _ Hj1 Hj2) as Hover.
    unfold last_n. fold (len c1). rewrite Hlen in *.
    by change (800 - 200) with 600.
  - apply chunks_of_last in Hlast. lia.
Qed.

(** A text of 900 characters: the first chunk is full. *)
Lemma chunk_overlap_after_full_chunk_witness :
  last_n 200 (take 800 (Scenario.sample_text 900))
  = take 200 (drop 600 (Scenario.sample_text 900)).
Proof.
  apply (chunk_overlap_after_full_chunk [Scenario.sample_text 900] (py "doc") 0).
  - by vm_compute.
  - by vm_compute.
  - by vm_compute.
Defined.

(** C7 as stated fails when the first of the two chunks is not full: a
    text of 700 characters gives a chunk of 700 and a chunk of 100
    characters, and the last 200 characters of the first are not the
    (100) first characters of the second. *)
Lemma chunk_overlap_counterexample :
  exists i c1 c2,
    (_chunk_texts [Scenario.sample_text 700] (py "doc")).1 !! i = Some c1
    /\ (_chunk_texts [Scenario.sample_text 700] (py "doc")).1 !! S i = Some c2
    /\ len (last_n 200 c1) = 200 /\ len (take 200 c2) = 100
    /\ last_n 200 c1 <> take 200 c2.
Proof.
  exists 0, (Scenario.sample_text 700), (drop 600 (Scenario.sample_text 700)).
  split; [by vm_compute|]. split; [by vm_compute|].
  split; [by vm_compute|]. split; [by vm_compute|].
  intros Heq. apply (f_equal length) in Heq. vm_compute in Heq. discriminate Heq.
Qed.

Example chunk_texts_700 :
  _chunk_texts [Scenario.sample_text 700] (py "doc")
  = ([Scenario.sample_text 700; drop 600 (Scenario.sample_text 700)],
     [py "doc_1"; py "doc_2"]).
Proof. by vm_compute. Qed.

(** The chunks of two texts follow each other; the ids count on. *)
Example chunk_texts_two_texts :
  _chunk_texts [Scenario.sample_text 60; List.map N.of_nat (seq 5000 60)]
    (py "doc")
  = ([Scenario.sample_text 60; List.map N.of_nat (seq 5000 60)],
     [py "doc_1"; py "doc_2"]).
Proof. by vm_compute. Qed.

(* ================================================================== *)
(** * The preference store *)
(* ================================================================== *)

Module UserPrefsFacts.
Import UserPrefs.

Lemma with_defaults_lookup (rec : gmap (list N) pyval) k :
  with_defaults rec !! k
  = match rec !! k with
    | Some v => Some v
    | None => _DEFAULT !! k
    end.
Proof.
  unfold with_defaults. destruct (rec !! k) as [v|] eqn:Hk.
  - rewrite lookup_union_l'; [done|]. by rewrite Hk.
  - by rewrite lookup_union_r.
Qed.

Lemma default_fields k : In k FIELDS -> is_Some (_DEFAULT !! k).
Proof.
  intros [<-|[<-|[<-|[]]]]; vm_compute; eauto.
Qed.

Lemma not_none_lookup (kwargs : gmap (list N) pyval) k :
  not_none kwargs !! k
  = match kwargs !! k with
    | Some VNone => None
    | other => other
    end.
Proof.
  unfold not_none. destruct (kwargs !! k) as [v|] eqn:Hk.
  - destruct (decide (v = VNone)) as [->|Hv].
    + apply map_lookup_filter_None. right. intros v Hv. cbn.
      rewrite Hk in Hv. injection Hv as <-. by intros [].
    + transitivity (Some v); [|by destruct v].
      apply map_lookup_filter_Some. by split.
  - apply map_lookup_filter_None. by left.
Qed.

Lemma get_fst f user_id : (get f user_id).1 = with_defaults (stored f user_id).
Proof. unfold get, stored. by destruct (_load f). Qed.

Lemma set_fst f user_id kwargs :
  (set f user_id kwargs).1 = not_none kwargs ∪ (get f user_id).1.
Proof. rewrite get_fst. unfold set, stored. by destruct (_load f). Qed.

Lemma set_snd f user_id kwargs :
  (set f user_id kwargs).2
  = Valid (<[str_of_int user_id := (set f user_id kwargs).1]> (_load f).1).
Proof. unfold set. by destruct (_load f). Qed.

Lemma set_lookup f user_id kwargs k :
  (set f user_id kwargs).1 !! k
  = match kwargs !! k with
    | Some VNone | None => (get f user_id).1 !! k
    | Some v => Some v
    end.
Proof.
  rewrite set_fst.
  pose proof (not_none_lookup kwargs k) as Hn.
  destruct (kwargs !! k) as [v|].
  - destruct v; try (rewrite lookup_union_l'; [done|by rewrite Hn]).
    by rewrite lookup_union_r.
  - by rewrite lookup_union_r.
Qed.

(** C10. For every user id, the records [get] and [set] return hold all
    three fields; a field the file does not hold for the user has its
    default value ([set]: unless a value other than [None] is passed for
    it), a stored field keeps its value in [get]; a keyword passed to
    [set] with the value [None] leaves the field as [get] showed it,
    also in the record [set] stores; any other value passed is the new
    value of the field. *)
Theorem prefs_complete_none_ignored
    (f : file) (user_id : Z) (kwargs : gmap (list N) pyval) :
  (forall k, In k FIELDS ->
     is_Some ((get f user_id).1 !! k)
     /\ is_Some ((set f user_id kwargs).1 !! k)
     /\ (stored f user_id !! k = None ->
         (get f user_id).1 !! k = _DEFAULT !! k
         /\ (kwargs !! k = None \/ kwargs !! k = Some VNone ->
             (set f user_id kwargs).1 !! k = _DEFAULT !! k)))
  /\ (forall k v, stored f user_id !! k = Some v ->
        (get f user_id).1 !! k = Some v)
  /\ (forall k, kwargs !! k = Some VNone ->
        (set f user_id kwargs).1 !! k = (get f user_id).1 !! k
        /\ (get (set f user_id kwargs).2 user_id).1 !! k
           = (get f user_id).1 !! k)
  /\ (forall k v, kwargs !! k = Some v -> v <> VNone ->
        (set f user_id kwargs).1 !! k = Some v)
  /\ stored (set f user_id kwargs).2 user_id = (set f user_id kwargs).1.
Proof.
  assert (Hget : forall k, In k FIELDS -> is_Some ((get f user_id).1 !! k)).
  { intros k Hk. rewrite get_fst, with_defaults_lookup.
    destruct (stored f user_id !! k); [done|]. by apply default_fields. }
  assert (Hstored : stored (set f user_id kwargs).2 user_id
                    = (set f user_id kwargs).1).
  { rewrite set_snd. unfold stored. cbn [_load fst].
    by rewrite lookup_insert_eq. }
  split; [|split; [|split; [|split]]].
  - intros k Hk. split; [by apply Hget|]. split.
    + rewrite set_lookup. destruct (kwargs !! k) as [[]|]; auto.
    + intros Hnone. split.
      * by rewrite get_fst, with_defaults_lookup, Hnone.
      * intros Hk'. rewrite set_lookup.
        destruct Hk' as [-> | ->];
          by rewrite get_fst, with_defaults_lookup, Hnone.
  - intros k v Hv. by rewrite get_fst, with_defaults_lookup, Hv.
  - intros k Hk.
    assert (Hset : (set f user_id kwargs).1 !! k = (get f user_id).1 !! k)
      by by rewrite set_lookup, Hk.
    split; [done|].
    rewrite (get_fst (set f user_id kwargs).2), Hstored.
    rewrite with_defaults_lookup, Hset.
    rewrite get_fst, with_defaults_lookup.
    destruct (stored f user_id !! k); [done|].
    by destruct (_DEFAULT !! k).
  - intros k v Hv Hne. rewrite set_lookup, Hv. by destruct v.
  - done.
Qed.

(** A user without a record passes a style and [voice=None]: the voice
    stays the default one. *)
Lemma prefs_complete_none_ignored_witness :
  (set Missing 42 {[ k_style := VStr (py "calm"); k_voice := VNone ]}).1
    !! k_voice
  = (get Missing 42).1 !! k_voice.
Proof.
  pose proof (prefs_complete_none_ignored Missing 42
                {[ k_style := VStr (py "calm"); k_voice := VNone ]})
    as (_ & _ & Hnone & _).
  apply Hnone. by vm_compute.
Defined.

(** A user without a record passes a style and [voice=None]. *)
Example set_style_none_voice :
  (set Missing 42 {[ k_style := VStr (py "calm"); k_voice := VNone ]}).1
  = <[k_lang := VStr (py "ru-RU")]>
      (<[k_voice := VStr (py "ru-RU-Wavenet-D")]>
         (<[k_style := VStr (py "calm")]> ∅))
  /\ (get Missing 42).1 = _DEFAULT
  /\ (get Corrupt 42).1 = _DEFAULT.
Proof. repeat split; by vm_compute. Qed.

End UserPrefsFacts.

(* ================================================================== *)
(** * Facts on the string operations *)
(* ================================================================== *)

Lemma lstrip_starts_clean s : starts_clean (lstrip s).
Proof.
  induction s as [|c s IH]; [done|]. cbn [lstrip].
  by destruct (isspace c) eqn:Hc.
Qed.

Lemma lstrip_clean s : starts_clean s -> lstrip s = s.
Proof. destruct s as [|c s]; [done|]. cbn. by intros ->. Qed.

Lemma lstrip_snoc s c :
  isspace c = false -> exists u, lstrip (s ++ [c]) = u ++ [c].
Proof.
  intros Hc. induction s as [|d s IH].
  - exists []. cbn. by rewrite Hc.
  - cbn [app lstrip]. destruct (isspace d); [done|]. by exists (d :: s).
Qed.

Lemma lstrip_visible s : visible (lstrip s) = visible s.
Proof.
  induction s as [|c s IH]; [done|]. cbn [lstrip].
  destruct (isspace c) eqn:Hc; [|done]. unfold visible in *. cbn.
  by rewrite Hc.
Qed.

Lemma visible_rev s : visible (rev s) = rev (visible s).
Proof.
  unfold visible. induction s as [|c s IH]; [done|]. cbn.
  rewrite List.filter_app, IH. cbn. destruct (isspace c); cbn; [|done].
  by rewrite app_nil_r.
Qed.

Lemma strip_trimmed s : trimmed (strip s).
Proof.
  unfold trimmed, strip, rstrip. rewrite rev_involutive.
  split; [|apply lstrip_starts_clean].
  pose proof (lstrip_starts_clean s) as Hl.
  destruct (lstrip s) as [|c t]; [done|]. cbn [rev].
  destruct (lstrip_snoc (rev t) c Hl) as [u ->].
  rewrite rev_app_distr. done.
Qed.

Lemma strip_of_trimmed s : trimmed s -> strip s = s.
Proof.
  intros [Hs Hr]. unfold strip, rstrip.
  by rewrite (lstrip_clean s), (lstrip_clean (rev s)), rev_involutive.
Qed.

Lemma strip_idemp s : strip (strip s) = strip s.
Proof. apply strip_of_trimmed, strip_trimmed. Qed.

Lemma strip_visible s : visible (strip s) = visible s.
Proof.
  unfold strip, rstrip.
  by rewrite visible_rev, lstrip_visible, visible_rev, rev_involutive,
    lstrip_visible.
Qed.

(** ** Decimal numerals *)

Lemma digits_go_app fuel n acc :
  digits_go fuel n acc = digits_go fuel n [] ++ acc.
Proof.
  revert n acc. induction fuel as [|fuel IH]; intros n acc; [done|].
  cbn [digits_go]. destruct (n <? 10)%N; [done|].
  rewrite IH, (IH _ [_]). by rewrite <- app_assoc.
Qed.

Lemma digits_value_snoc s d :
  digits_value (s ++ [d]) = (10 * digits_value s + (d - 48))%N.
Proof. unfold digits_value. by rewrite fold_left_app. Qed.

Lemma digits_go_value fuel n :
  N.to_nat n < fuel -> digits_value (digits_go fuel n []) = n.
Proof.
  revert n. induction fuel as [|fuel IH]; intros n Hn; [lia|].
  cbn [digits_go]. destruct (N.ltb_spec n 10) as [Hsmall|Hbig].
  - change (digits_value [(48 + n mod 10)%N])
      with (10 * 0 + (48 + n mod 10 - 48))%N.
    rewrite N.mod_small by done. lia.
  - rewrite digits_go_app, digits_value_snoc, IH.
    + pose proof (N.div_mod n 10 ltac:(lia)) as Hdm.
      set (a := (n / 10)%N) in *. set (b := (n mod 10)%N) in *.
      clearbody a b. lia.
    + assert (n / 10 < n)%N by (apply N.div_lt; lia). lia.
Qed.

(** [int(str(n)) = n] *)
Lemma str_of_nat_value n : digits_value (str_of_nat n) = N.of_nat n.
Proof. unfold str_of_nat. apply digits_go_value. lia. Qed.

Lemma str_of_nat_inj n m : str_of_nat n = str_of_nat m -> n = m.
Proof.
  intros Heq. apply (f_equal digits_value) in Heq.
  rewrite !str_of_nat_value in Heq. lia.
Qed.

Lemma digits_go_digits fuel n acc :
  Forall (fun d => (48 <= d <= 57)%N) acc ->
  Forall (fun d => (48 <= d <= 57)%N) (digits_go fuel n acc).
Proof.
  revert n acc. induction fuel as [|fuel IH]; intros n acc Hacc; [done|].
  cbn [digits_go].
  assert (Hd : (48 <= 48 + n mod 10 <= 57)%N).
  { pose proof (N.mod_upper_bound n 10 ltac:(lia)) as Hub.
    set (b := (n mod 10)%N) in *. clearbody b. lia. }
  destruct (n <? 10)%N; [by constructor|]. apply IH. by constructor.
Qed.

Lemma str_of_nat_digits n :
  Forall (fun d => (48 <= d <= 57)%N) (str_of_nat n).
Proof. apply digits_go_digits. constructor. Qed.

Lemma str_of_nat_nonempty n : str_of_nat n <> [].
Proof.
  unfold str_of_nat. cbn [digits_go].
  destruct (N.of_nat n <? 10)%N; [done|].
  rewrite digits_go_app. by destruct (digits_go _ _ []).
Qed.

(** Two numerals followed by the same non-digit and equal as a whole are
    equal part by part. *)
Lemma digits_sep_inj (d1 d2 r1 r2 : pystr) (sep : N) :
  Forall (fun d => (48 <= d <= 57)%N) d1 ->
  Forall (fun d => (48 <= d <= 57)%N) d2 ->
  ~ (48 <= sep <= 57)%N ->
  d1 ++ sep :: r1 = d2 ++ sep :: r2 -> d1 = d2 /\ r1 = r2.
Proof.
  intros H1 H2 Hsep. revert d2 H2.
  induction H1 as [|x d1 Hx _ IH]; intros d2 H2 Heq.
  - destruct H2 as [|y d2 Hy _]; cbn in Heq.
    + by injection Heq as ->.
    + injection Heq as -> _. lia.
  - destruct H2 as [|y d2 Hy H2]; cbn in Heq.
    + injection Heq as -> _. lia.
    + injection Heq as -> Heq. destruct (IH d2 H2 Heq) as [-> ->]. done.
Qed.

(** ** Splitting on white space and joining with a space *)

Lemma visible_clean w : Forall (fun c => isspace c = false) w -> visible w = w.
Proof.
  unfold visible. induction 1 as [|c w Hc _ IH]; [done|]. cbn.
  by rewrite Hc, IH.
Qed.

Lemma visible_app s t : visible (s ++ t) = visible s ++ visible t.
Proof. apply List.filter_app. Qed.

Lemma rev_nonempty {A} (l : list A) : l <> [] -> rev l <> [].
Proof.
  intros Hl Hr. apply (f_equal (@rev A)) in Hr.
  by rewrite rev_involutive in Hr.
Qed.

Lemma split_go_clean s cur :
  Forall (fun c => isspace c = false) cur -> Forall clean_word (split_go s cur).
Proof.
  revert cur. induction s as [|c s IH]; intros cur Hcur; cbn [split_go].
  - destruct cur as [|d cur]; [constructor|]. constructor; [|constructor].
    split; [by apply rev_nonempty|]. by apply Forall_rev.
  - destruct (isspace c) eqn:Hc.
    + destruct cur as [|d cur]; [by apply IH|].
      constructor; [|by apply IH].
      split; [by apply rev_nonempty|]. by apply Forall_rev.
    + apply IH. by constructor.
Qed.

Lemma split_go_concat s cur :
  concat (split_go s cur) = rev cur ++ visible s.
Proof.
  revert cur. induction s as [|c s IH]; intros cur; cbn [split_go].
  - destruct cur as [|d cur]; [done|]. cbn [concat]. by rewrite !app_nil_r.
  - unfold visible. cbn [List.filter]. fold (visible s).
    destruct (isspace c) eqn:Hc; cbn [negb].
    + destruct cur as [|d cur]; [apply IH|].
      cbn [concat]. by rewrite IH.
    + rewrite IH. cbn [rev]. by rewrite <- app_assoc.
Qed.

Lemma split_go_word w s cur :
  Forall (fun c => isspace c = false) w ->
  split_go (w ++ s) cur = split_go s (rev w ++ cur).
Proof.
  intros Hw. revert cur. induction Hw as [|c w Hc _ IH]; intros cur; [done|].
  cbn [app split_go]. rewrite Hc, IH. cbn [rev]. by rewrite <- app_assoc.
Qed.

Lemma split_join words :
  Forall clean_word words -> split (join [32%N] words) = words.
Proof.
  unfold split. induction 1 as [|w words [Hne Hw] Hwords IH]; [done|].
  destruct words as [|w' words].
  - cbn [join]. rewrite <- (app_nil_r w) at 1.
    rewrite split_go_word by done. rewrite app_nil_r. cbn [split_go].
    destruct (rev w) as [|c r] eqn:Hr.
    + by apply rev_nonempty in Hne.
    + by rewrite <- Hr, rev_involutive.
  - change (join [32%N] (w :: w' :: words))
      with (w ++ 32%N :: join [32%N] (w' :: words)).
    rewrite split_go_word by done. rewrite app_nil_r. cbn [split_go].
    change (isspace 32) with true. cbn match.
    destruct (rev w) as [|c r] eqn:Hr.
    + by apply rev_nonempty in Hne.
    + rewrite <- Hr, rev_involutive. by rewrite IH.
Qed.

Lemma join_visible words :
  Forall clean_word words -> visible (join [32%N] words) = concat words.
Proof.
  induction 1 as [|w words [Hne Hw] Hwords IH]; [done|].
  destruct words as [|w' words].
  - cbn [join concat]. by rewrite app_nil_r, visible_clean.
  - change (join [32%N] (w :: w' :: words))
      with (w ++ [32%N] ++ join [32%N] (w' :: words)).
    rewrite !visible_app, IH, visible_clean by done. done.
Qed.

Lemma single_spaced_cons c s :
  isspace c = false -> single_spaced (c :: s) = single_spaced s.
Proof. intros Hc. destruct s as [|d s]; [done|]. cbn. by rewrite Hc. Qed.

Lemma single_spaced_word w s :
  Forall (fun c => isspace c = false) w ->
  single_spaced (w ++ s) = single_spaced s.
Proof.
  induction 1 as [|c w Hc _ IH]; [done|]. cbn [app].
  by rewrite single_spaced_cons.
Qed.

Lemma join_starts_clean words :
  Forall clean_word words -> starts_clean (join [32%N] words).
Proof.
  intros Hall. destruct Hall as [|w ws [Hne Hw] _]; [done|].
  rewrite join_cons. destruct Hw as [|c w Hc _]; [done|]. done.
Qed.

Lemma join_ends_clean words :
  Forall clean_word words -> starts_clean (rev (join [32%N] words)).
Proof.
  induction 1 as [|w words [Hne Hw] Hwords IH]; [done|].
  destruct words as [|w' words].
  - cbn [join]. apply Forall_rev in Hw.
    destruct (rev w) as [|c r] eqn:Hr; [done|]. by inversion Hw.
  - change (join [32%N] (w :: w' :: words))
      with (w ++ [32%N] ++ join [32%N] (w' :: words)).
    rewrite !rev_app_distr.
    destruct (rev (join [32%N] (w' :: words))) as [|c r] eqn:Hr; [|done].
    exfalso. apply (rev_nonempty (join [32%N] (w' :: words))); [|done].
    rewrite join_cons. inversion Hwords as [|? ? [Hne' _] _]; subst.
    by destruct w'.
Qed.

Lemma join_single_spaced words :
  Forall clean_word words -> single_spaced (join [32%N] words) = true.
Proof.
  induction 1 as [|w words [Hne Hw] Hwords IH]; [done|].
  destruct words as [|w' words].
  - cbn [join]. rewrite <- (app_nil_r w). by rewrite single_spaced_word.
  - change (join [32%N] (w :: w' :: words))
      with (w ++ 32%N :: join [32%N] (w' :: words)).
    rewrite single_spaced_word by done.
    pose proof (join_starts_clean _ Hwords) as Hstart.
    destruct (join [32%N] (w' :: words)) as [|d t] eqn:Hj; [done|].
    cbn in Hstart.
    change (single_spaced (32%N :: d :: t))
      with (negb (isspace 32 && isspace d) && single_spaced (d :: t)).
    by rewrite Hstart, IH, andb_false_r.
Qed.

Lemma join_spaces words :
  Forall clean_word words ->
  Forall (fun c => isspace c = true -> c = 32%N) (join [32%N] words).
Proof.
  induction 1 as [|w words [Hne Hw] Hwords IH]; [constructor|].
  rewrite join_cons. apply Forall_app. split.
  - eapply Forall_impl; [exact Hw|]. cbn. intros c -> [=].
  - destruct words as [|w' words]; [constructor|].
    unfold join_rest. apply Forall_app. split; [|exact IH].
    by constructor.
Qed.

(** X3. The white-space normalisation of [_chunk_texts] changes white
    space only: the other characters stay, in order. Its result has no
    white space at either end and no two white-space characters in a
    row, its only white space is the plain space, normalising again
    changes nothing, and the result is empty exactly when the text has
    no character besides white space. *)
Theorem normalize_spaces_only (raw : pystr) :
  visible (normalize raw) = visible raw
  /\ trimmed (normalize raw)
  /\ single_spaced (normalize raw) = true
  /\ Forall (fun c => isspace c = true -> c = 32%N) (normalize raw)
  /\ normalize (normalize raw) = normalize raw
  /\ (normalize raw = [] <-> visible raw = []).
Proof.
  unfold normalize. change (py " ") with [32%N].
  assert (Hwords : Forall clean_word (split raw))
    by (apply split_go_clean; constructor).
  assert (Hvis : visible (join [32%N] (split raw)) = visible raw).
  { rewrite join_visible by done. unfold split.
    by rewrite split_go_concat. }
  split; [done|]. split; [|split; [|split; [|split]]].
  - split; [by apply join_starts_clean|by apply join_ends_clean].
  - by apply join_single_spaced.
  - by apply join_spaces.
  - by rewrite split_join.
  - split; [intros Hnil; by rewrite <- Hvis, Hnil|].
    intros Hnil. rewrite <- Hvis in Hnil.
    pose proof (join_starts_clean _ Hwords) as Hstart.
    destruct (join [32%N] (split raw)) as [|c t]; [done|].
    cbn in Hstart. unfold visible in Hnil. cbn in Hnil.
    by rewrite Hstart in Hnil.
Qed.

(* ================================================================== *)
(** * Further properties of the chunking utility *)
(* ================================================================== *)

Lemma chunk_id_inj prefix i j : chunk_id prefix i = chunk_id prefix j -> i = j.
Proof.
  unfold chunk_id. intros Heq. apply app_inv_head in Heq.
  apply app_inv_head in Heq. by apply str_of_nat_inj.
Qed.

Lemma chunk_while_ids fuel text prefix chunk_chars step start idx :
  List.map snd (chunk_while fuel text prefix chunk_chars step start idx).1
  = List.map (chunk_id prefix)
      (seq idx
         (length (chunk_while fuel text prefix chunk_chars step start idx).1))
  /\ (chunk_while fuel text prefix chunk_chars step start idx).2
     = idx
       + length (chunk_while fuel text prefix chunk_chars step start idx).1.
Proof.
  revert start idx. induction fuel as [|fuel IH]; intros start idx.
  { cbn. split; [done|lia]. }
  cbn [chunk_while].
  destruct (start <? len text); [|cbn; split; [done|lia]].
  destruct (50 <? len (slice start (start + chunk_chars) text)).
  - cbn [fst snd List.map length seq].
    destruct (IH (start + step) (idx + 1)) as [Hids Hnext].
    rewrite Hids, Hnext. replace (idx + 1) with (S idx) by lia.
    split; [done|lia].
  - apply IH.
Qed.

Lemma chunk_for_ids texts prefix chunk_chars overlap idx :
  List.map snd (chunk_for texts prefix chunk_chars overlap idx)
  = List.map (chunk_id prefix)
      (seq idx (length (chunk_for texts prefix chunk_chars overlap idx))).
Proof.
  revert idx. induction texts as [|raw texts IH]; intros idx; [done|].
  cbn [chunk_for]. destruct (normalize raw) as [|c text] eqn:Htext; [apply IH|].
  set (r := chunk_while _ _ _ _ _ _ _).
  destruct (chunk_while_ids (len (c :: text)) (c :: text) prefix chunk_chars
              (max 100 (chunk_chars - overlap)) 0 idx) as [Hids Hnext].
  fold r in Hids, Hnext.
  rewrite map_app, length_app, seq_app, map_app, Hids, IH, Hnext. done.
Qed.

(** X1. [_chunk_texts] gives every chunk one id: the ids are
    [prefix_1], [prefix_2], ... in the order of the chunks, counting on
    from one text to the next, and no two of them are equal. *)
Theorem chunk_ids_numbered (texts : list pystr) (prefix : pystr) :
  (_chunk_texts texts prefix).2
  = List.map (chunk_id prefix)
      (seq 1 (length (_chunk_texts texts prefix).1))
  /\ length (_chunk_texts texts prefix).2
     = length (_chunk_texts texts prefix).1
  /\ NoDup (_chunk_texts texts prefix).2.
Proof.
  unfold _chunk_texts, _chunk_texts_with. cbn [fst snd].
  rewrite chunk_for_ids, !length_map, length_seq.
  split; [done|]. split; [done|].
  assert (Hinj : Inj (=) (=) (chunk_id prefix))
    by (intros i j; apply chunk_id_inj).
  apply (NoDup_fmap_2 _), NoDup_seq.
Qed.

(** X2. Chunking loses nothing of a text longer than 50 characters:
    every character of the normalized text lies in the chunk that starts
    at or before it (the one before that when the last window is too
    short to be kept). Every chunk has more than 50 and at most 800
    characters. A text of 50 characters or fewer is dropped whole. *)
Theorem chunks_cover_text (raw prefix : pystr) :
  (50 < len (normalize raw) ->
   forall p ch, normalize raw !! p = Some ch ->
     exists i c, chunks_of raw prefix !! i = Some c
       /\ i * 600 <= p /\ c !! (p - i * 600) = Some ch)
  /\ (forall c, In c (chunks_of raw prefix) -> 50 < len c <= 800)
  /\ (len (normalize raw) <= 50 -> chunks_of raw prefix = []).
Proof.
  set (text := normalize raw). split; [|split].
  - intros Hlong p ch Hp.
    pose proof (lookup_lt_Some _ _ _ Hp) as Hlt. fold (len text) in Hlt.
    assert (Hwin : forall i, i * 600 <= p -> p < i * 600 + 800 ->
              window text 800 600 i !! (p - i * 600) = Some ch).
    { intros i Hi Hi'. unfold window. rewrite slice_window.
      rewrite lookup_take_lt by lia. rewrite lookup_drop.
      by replace (i * 600 + (p - i * 600)) with p by lia. }
    set (k := p / 600).
    assert (Hk : k * 600 <= p < k * 600 + 600).
    { unfold k. pose proof (Nat.div_mod_eq p 600).
      pose proof (Nat.mod_upper_bound p 600). lia. }
    destruct (decide (50 < len text - k * 600)) as [Hkeep|Hdrop].
    + exists k, (window text 800 600 k). split; [|split; [lia|apply Hwin; lia]].
      apply chunks_of_lookup. split; [done|]. rewrite window_length.
      fold text. lia.
    + destruct k as [|k]; [lia|].
      exists k, (window text 800 600 k). split; [|split; [lia|apply Hwin; lia]].
      apply chunks_of_lookup. split; [done|]. rewrite window_length.
      fold text. lia.
  - intros c (k & -> & Hlong & _)%chunks_of_In. split; [done|].
    rewrite window_length. lia.
  - intros Hshort.
    destruct (chunks_of raw prefix) as [|c docs] eqn:Hc; [done|].
    assert (Hin : In c (chunks_of raw prefix)) by (rewrite Hc; by left).
    apply chunks_of_In in Hin as (k & -> & Hlong & _).
    rewrite window_length in Hlong. fold text in Hlong. lia.
Qed.

(** A text of 1250 characters: the character at position 1230 lies in
    the window starting at 1200, which is too short to be kept, and is
    found in the chunk starting at 600. *)
Lemma chunks_cover_text_witness :
  exists i c,
    chunks_of (Scenario.sample_text 1250) (py "doc") !! i = Some c
    /\ i * 600 <= 1230 /\ c !! (1230 - i * 600) = Some 2230%N.
Proof.
  apply (proj1 (chunks_cover_text (Scenario.sample_text 1250) (py "doc"))).
  - vm_compute. lia.
  - by vm_compute.
Defined.

Example chunk_ids_1250 :
  (_chunk_texts [Scenario.sample_text 1250] (py "doc")).2
  = [py "doc_1"; py "doc_2"]
  /\ List.map len (_chunk_texts [Scenario.sample_text 1250] (py "doc")).1
     = [800; 650].
Proof. split; by vm_compute. Qed.

(* ================================================================== *)
(** * Further properties of the CV indexer *)
(* ================================================================== *)

Lemma work_id_inj key key' : work_id key = work_id key' -> key = key'.
Proof.
  destruct key as [i part], key' as [i' part']. unfold work_id. cbn [fst snd].
  intros Heq. apply app_inv_head in Heq.
  assert (Hsplit : forall (r r' : pystr),
    str_of_nat i ++ 95%N :: r = str_of_nat i' ++ 95%N :: r' ->
    i = i' /\ r = r').
  { intros r r' Hr.
    apply digits_sep_inj in Hr as [Hi Hr];
      [|apply str_of_nat_digits|apply str_of_nat_digits|lia].
    split; [by apply str_of_nat_inj|done]. }
  destruct part as [| |j], part' as [| |j'];
    apply Hsplit in Heq as [-> Hr]; try done.
  apply (app_inv_head (py "hl_")) in Hr. apply str_of_nat_inj in Hr.
  by subst.
Qed.

Lemma work_keys_ge i entries key : In key (work_keys i entries) -> i <= key.1.
Proof.
  revert i. induction entries as [|w entries IH]; intros i; [done|].
  cbn [work_keys]. rewrite in_app_iff.
  intros [[<-|[<-|Hin]]|Hin]; cbn; try lia.
  - apply in_map_iff in Hin as (j & <- & _). cbn. lia.
  - apply IH in Hin. lia.
Qed.

Lemma work_keys_NoDup i entries : NoDup (work_keys i entries).
Proof.
  revert i. induction entries as [|w entries IH]; intros i; [constructor|].
  cbn [work_keys]. apply NoDup_app. split; [|split; [|apply IH]].
  - constructor.
    { rewrite list_elem_of_In. intros [[=]|Hin].
      by apply in_map_iff in Hin as (j & [=] & _). }
    constructor.
    { rewrite list_elem_of_In. by intros (j & [=] & _)%in_map_iff. }
    assert (Hinj : Inj (=) (=) (fun j => (i, WHighlight j)))
      by (by intros j j' [=]).
    apply (NoDup_fmap_2 _), NoDup_seq.
  - intros key Hkey Hrest. apply list_elem_of_In, work_keys_ge in Hrest.
    apply list_elem_of_In in Hkey.
    destruct Hkey as [<-|[<-|Hin]]; cbn in Hrest; try lia.
    apply in_map_iff in Hin as (j & <- & _). cbn in Hrest. lia.
Qed.

Lemma imap_index {A B} (g : nat -> B) (l : list A) k :
  imap (fun j _ => g (k + j)) l = List.map g (seq k (length l)).
Proof.
  revert k. induction l as [|x l IH]; intros k; [done|].
  rewrite imap_cons. cbn [length seq List.map].
  replace (k + 0) with k by lia. f_equal.
  rewrite <- IH. apply imap_ext.
  intros j y _. cbn. f_equal. lia.
Qed.

Lemma cv_work_fragments_ids i w :
  List.map snd (cv_work_fragments i w)
  = List.map work_id
      ((i, WFull) :: (i, WBrief)
       :: List.map (fun j => (i, WHighlight j)) (seq 0 (length (w_highlights w)))).
Proof.
  unfold cv_work_fragments. rewrite map_app. cbn [List.map snd app].
  change (work_id (i, WFull))
    with (py "cv_work_" ++ str_of_nat i ++ py "_full").
  change (work_id (i, WBrief))
    with (py "cv_work_" ++ str_of_nat i ++ py "_brief").
  apply (f_equal (cons _)), (f_equal (cons _)).
  rewrite List.map_map. unfold work_id. cbn [fst snd].
  generalize (w_highlights w). intros hl.
  change (List.map snd ?l) with (snd <$> l). rewrite fmap_imap.
  by rewrite <- (imap_index
    (fun j => py "cv_work_" ++ str_of_nat i ++ py "_hl_" ++ str_of_nat j) hl 0).
Qed.

Lemma cv_work_ids k entries :
  List.map snd (concat (imap (fun i => cv_work_fragments (k + i)) entries))
  = List.map work_id (work_keys k entries).
Proof.
  revert k. induction entries as [|w entries IH]; intros k; [done|].
  rewrite imap_cons. cbn [concat work_keys].
  rewrite !map_app, cv_work_fragments_ids.
  replace (k + 0) with k by lia. f_equal.
  rewrite <- IH. do 2 f_equal. apply imap_ext. intros i x _.
  unfold compose. f_equal. lia.
Qed.

Lemma work_keys_length k entries :
  length (work_keys k entries)
  = sum_list (List.map (fun w => 2 + length (w_highlights w)) entries).
Proof.
  revert k. induction entries as [|w entries IH]; intros k; [done|].
  cbn [work_keys List.map sum_list]. rewrite length_app, IH.
  cbn [length]. rewrite length_map, length_seq. unfold id. lia.
Qed.

(** The ids of the fragments of a profile: four fixed ones, those of
    the work entries, thirteen fixed ones. *)
Lemma cv_fragments_ids data :
  List.map snd (cv_fragments data)
  = take 4 cv_fixed_ids
    ++ List.map work_id (work_keys 0 (work_experience data))
    ++ drop 4 cv_fixed_ids.
Proof.
  unfold cv_fragments. rewrite !map_app.
  rewrite <- (cv_work_ids 0). do 2 f_equal; reflexivity.
Qed.

Lemma cv_fixed_ids_NoDup : NoDup cv_fixed_ids.
Proof. apply (bool_decide_unpack _). by vm_compute. Qed.

Lemma cv_fixed_ids_not_work id :
  In id cv_fixed_ids -> nth 3 id 0%N <> 119%N.
Proof.
  revert id. apply (proj1 (List.Forall_forall _ cv_fixed_ids)).
  repeat (constructor; [by vm_compute|]). constructor.
Qed.

Lemma work_id_class key : nth 3 (work_id key) 0%N = 119%N.
Proof. reflexivity. Qed.

Lemma cv_fragments_ids_NoDup data : NoDup (List.map snd (cv_fragments data)).
Proof.
  rewrite cv_fragments_ids.
  assert (Hwork : NoDup (List.map work_id (work_keys 0 (work_experience data)))).
  { assert (Hinj : Inj (=) (=) work_id) by (intros k k'; apply work_id_inj).
    apply (NoDup_fmap_2 _), work_keys_NoDup. }
  assert (Hfixed : NoDup (take 4 cv_fixed_ids ++ drop 4 cv_fixed_ids)).
  { rewrite take_drop. apply cv_fixed_ids_NoDup. }
  assert (Hdisj : forall id,
    id ∈ List.map work_id (work_keys 0 (work_experience data)) ->
    id ∉ cv_fixed_ids).
  { intros id (key & <- & _)%list_elem_of_In%in_map_iff Hin.
    apply list_elem_of_In, cv_fixed_ids_not_work in Hin.
    by rewrite work_id_class in Hin. }
  apply NoDup_app in Hfixed as (Hhead & Hsep & Htail).
  apply NoDup_app. split; [done|]. split.
  - intros id Hid [Hin|Hin]%elem_of_app.
    + apply (Hdisj id Hin). rewrite <- (take_drop 4 cv_fixed_ids).
      apply elem_of_app. by left.
    + by apply (Hsep id).
  - apply NoDup_app. split; [done|]. split; [|done].
    intros id Hid Hin. apply (Hdisj id Hid).
    rewrite <- (take_drop 4 cv_fixed_ids). apply elem_of_app. by right.
Qed.

Section IndexerIds.
Context `{Backends}.

(** X4. For any profile, indexing an empty CV collection stores
    fragments with pairwise distinct ids, 17 of them besides two plus
    the number of highlights for every work-experience entry, each
    document under the id built for it. *)
Theorem index_cv_distinct_ids (data : CVData) (self : MemoryManager) :
  count (cv_col self) = 0 ->
  NoDup (List.map fst (cv_col (index_cv data self).1))
  /\ count (cv_col (index_cv data self).1)
     = 17 + sum_list (List.map (fun w => 2 + length (w_highlights w))
                        (work_experience data))
  /\ List.map (fun e => (e.2, e.1)) (cv_col (index_cv data self).1)
     = cv_fragments data.
Proof.
  intros Hzero. destruct (index_cv_empty data self Hzero) as [Hcol Hcount].
  assert (Hids : List.map fst (cv_col (index_cv data self).1)
                 = List.map snd (cv_fragments data)).
  { rewrite Hcol. generalize (cv_fragments data). intros l.
    induction l as [|e l IH]; [done|]. cbn. by rewrite IH. }
  split; [|split].
  - rewrite Hids. apply cv_fragments_ids_NoDup.
  - rewrite Hcount, <- (length_map snd), cv_fragments_ids.
    rewrite !length_app, length_map, work_keys_length.
    change (length (take 4 cv_fixed_ids)) with 4.
    change (length (drop 4 cv_fixed_ids)) with 13. lia.
  - rewrite Hcol. generalize (cv_fragments data). intros l.
    induction l as [|[d i] l IH]; [done|]. cbn. by rewrite IH.
Qed.

End IndexerIds.

(** The profile of [config.py] on the fresh manager: 17 + 3 * 5
    fragments. *)
Lemma index_cv_distinct_ids_witness :
  NoDup (List.map fst
           (cv_col (@index_cv Scenario.backends CV_DATA Scenario.fresh).1))
  /\ count (cv_col (@index_cv Scenario.backends CV_DATA Scenario.fresh).1)
     = 17 + sum_list (List.map (fun w => 2 + length (w_highlights w))
                        (work_experience CV_DATA))
  /\ List.map (fun e => (e.2, e.1))
       (cv_col (@index_cv Scenario.backends CV_DATA Scenario.fresh).1)
     = cv_fragments CV_DATA.
Proof.
  apply (@index_cv_distinct_ids Scenario.backends CV_DATA Scenario.fresh).
  reflexivity.
Defined.

(* ================================================================== *)
(** * Further properties of the memory manager *)
(* ================================================================== *)

Section MemoryFacts.
Context `{Backends}.

(** X5. [_mem0_search] returns at most [k] memories, the texts of the
    first [k] hits of the backend whichever its kind; it returns none
    when episodic memory is disabled or the search raises. *)
Theorem mem0_search_bounded
    (self : MemoryManager) (query user_id : pystr) (k : nat) :
  length (_mem0_search self query user_id k) <= k
  /\ (mem0 self = None -> _mem0_search self query user_id k = [])
  /\ (forall client,
        mem0 self = Some client ->
        let limit := match mem0_kind self with
                     | platform => Some k
                     | _ => None
                     end in
        _mem0_search self query user_id k
        = match mem0_search client query user_id limit with
          | Some hits => List.map hit_text (take k hits)
          | None => []
          end).
Proof.
  unfold _mem0_search. split; [|split].
  - destruct (mem0 self) as [client|]; [|cbn; lia].
    destruct (mem0_kind self);
      destruct (mem0_search client query user_id _); cbn [length]; try lia;
      rewrite ?length_map, length_take; lia.
  - by intros ->.
  - intros client ->.
    destruct (mem0_kind self);
      destruct (mem0_search client query user_id _); try done.
    cbn. change (List.map hit_text ?l) with (hit_text <$> l).
    by rewrite fmap_take.
Qed.

Lemma add_conversation_memory_frame
    (self : MemoryManager) user_id message response :
  kb_col (add_conversation_memory self user_id message response) = kb_col self
  /\ cv_col (add_conversation_memory self user_id message response)
     = cv_col self
  /\ mem0_kind (add_conversation_memory self user_id message response)
     = mem0_kind self
  /\ (is_Some (mem0 (add_conversation_memory self user_id message response))
      <-> is_Some (mem0 self)).
Proof.
  unfold add_conversation_memory. cbn [kb_col cv_col mem0_kind mem0].
  split; [done|]. split; [done|]. split; [done|].
  destruct (mem0 self) as [client|]; [|done].
  destruct (mem0_add client _ user_id); split; eauto.
Qed.

(** X6. Whatever the calls, [add_conversation_memory] leaves both
    collections and the kind of episodic memory as they were, keeps an
    episodic client exactly when there was one, and changes the history
    of no user the calls do not name. *)
Theorem add_all_frame
    (self : MemoryManager) (calls : list (pystr * pystr * pystr)) :
  kb_col (add_all self calls) = kb_col self
  /\ cv_col (add_all self calls) = cv_col self
  /\ mem0_kind (add_all self calls) = mem0_kind self
  /\ (is_Some (mem0 (add_all self calls)) <-> is_Some (mem0 self))
  /\ (forall user_id,
        ~ In user_id (List.map (fun call => call.1.1) calls) ->
        dialog (add_all self calls) !! user_id = dialog self !! user_id).
Proof.
  revert self. induction calls as [|[[u m] r] calls IH]; intros self.
  { by cbn. }
  cbn [add_all fold_left fst snd].
  fold (add_all (add_conversation_memory self u m r) calls).
  destruct (IH (add_conversation_memory self u m r))
    as (Hkb & Hcv & Hkind & Hmem & Hdialog).
  destruct (add_conversation_memory_frame self u m r)
    as (Hkb' & Hcv' & Hkind' & Hmem').
  split; [congruence|]. split; [congruence|]. split; [congruence|].
  split; [by rewrite Hmem|].
  intros user_id Hnot. cbn [List.map fst snd] in Hnot.
  rewrite Hdialog by (intros Hin; apply Hnot; by right).
  assert (Hne : u <> user_id) by (intros ->; apply Hnot; by left).
  unfold add_conversation_memory. cbn [dialog].
  destruct (15 <? _); by rewrite ?lookup_insert_ne.
Qed.




End MemoryFacts.


Section InitMem0.
Context `{Mem0Library}.

(** X8. [_init_mem0] returns a client exactly when the kind is not
    ["none"]. The kind is ["platform"] exactly when the package is
    installed, an API key is configured (in the settings or, failing
    that, in the environment) and the hosted client accepts it, whatever
    the Gemini settings; it is ["oss"] only when that fails and a Gemini
    key is configured for which the embedded store starts; without the
    package it is ["none"]. *)
Theorem init_mem0_kind_client
    (settings_key env_key : option pystr) (gemini_key gemini_model : pystr) :
  let result := _init_mem0 settings_key env_key gemini_key gemini_model in
  let hosted := match str_or settings_key env_key with
                | Some (c :: key) => MemoryClient (c :: key)
                | _ => None
                end in
  (result.2 = None <-> result.1 = none)
  /\ (result.1 = platform <-> mem0_installed = true /\ is_Some hosted)
  /\ (result.1 = platform -> result.2 = hosted)
  /\ (result.1 = oss <->
      mem0_installed = true /\ hosted = None /\ gemini_key <> []
      /\ is_Some (Memory_from_config gemini_key gemini_model))
  /\ (result.1 = oss -> result.2 = Memory_from_config gemini_key gemini_model)
  /\ (mem0_installed = false -> result = (none, None)).
Proof.
  intros result hosted. unfold result, _init_mem0. fold hosted.
  destruct mem0_installed; cbn [negb].
  - destruct hosted as [client|].
    + cbn. repeat split; try done; eauto. by intros (_ & [=] & _).
    + destruct gemini_key as [|c key].
      * cbn. repeat split; try done. by intros [_ [? [=]]].
        by intros (_ & _ & ? & _).
      * destruct (Memory_from_config (c :: key) gemini_model) as [client|].
        -- cbn. repeat split; try done; eauto. by intros [_ [? [=]]].
        -- cbn. repeat split; try done. by intros [_ [? [=]]].
           by intros (_ & _ & _ & [? [=]]).
  - cbn. repeat split; try done. by intros [[=] _]. by intros [[=] _].
Qed.

End InitMem0.

(* ================================================================== *)
(** * Further properties of response generation *)
(* ================================================================== *)

Lemma trimmed_nil s : trimmed s -> (s = [] <-> visible s = []).
Proof.
  intros [Hstart _]. split; [by intros ->|].
  destruct s as [|c s]; [done|]. cbn in Hstart. unfold visible. cbn.
  by rewrite Hstart.
Qed.

Lemma strip_nil s : strip s = [] <-> visible s = [].
Proof. rewrite (trimmed_nil _ (strip_trimmed s)). by rewrite strip_visible. Qed.

Lemma reply_text_trimmed outcome : trimmed (reply_text outcome).
Proof.
  destruct outcome as [resp_text|]; [|by vm_compute].
  unfold reply_text.
  pose proof (strip_trimmed (default [] resp_text)) as Ht.
  destruct (strip (default [] resp_text)); [by vm_compute|done].
Qed.

Section GenerateResponse.
Context `{Backends}.

(** X9. Whatever the generation backend does, the reply of
    [generate_response] is not empty and has no white space at either
    end; it is the backend's text, stripped, whenever that text has a
    character besides white space. The exchange is appended to the
    user's history (of which the last 15 turns are kept); the histories
    of other users and both collections stay as they were. *)
Theorem generate_response_reply
    (memory : MemoryManager) (today user_message user_id : pystr) :
  let context := get_relevant_context memory user_message user_id in
  let outcome := generate_content (SYSTEM_PROMPT today context user_message) in
  let result := generate_response memory today user_message user_id in
  result.1 <> [] /\ trimmed result.1
  /\ (forall resp_text,
        outcome = Some (Some resp_text) -> visible resp_text <> [] ->
        result.1 = strip resp_text)
  /\ history result.2 user_id
     = last_n 15 (history memory user_id
                  ++ [{| q := user_message; a := result.1 |}])
  /\ (forall other, other <> user_id ->
        history result.2 other = history memory other)
  /\ kb_col result.2 = kb_col memory /\ cv_col result.2 = cv_col memory.
Proof.
  intros context outcome result.
  assert (Hresult : result
            = (reply_text outcome,
               add_conversation_memory memory user_id user_message
                 (reply_text outcome))) by reflexivity.
  clearbody result outcome. subst result. cbn [fst snd].
  split; [apply reply_text_nonempty|]. split; [apply reply_text_trimmed|].
  split; [|split; [apply history_add_same|split]].
  - intros resp_text -> Hvis. unfold reply_text.
    change (default [] (Some resp_text)) with resp_text.
    destruct (strip resp_text) as [|c s] eqn:Hs; [|done].
    by apply strip_nil in Hs.
  - intros other Hne. by apply history_add_other.
  - done.
Qed.

End GenerateResponse.

(** A backend that answers: the reply is the stripped answer. *)
Example generate_response_answer :
  reply_text (Some (Some (py "  Фирдавс — ML-инженер.
"))) = py "Фирдавс — ML-инженер.".
Proof. by vm_compute. Qed.

(* ================================================================== *)
(** * Further properties of the preference store *)
(* ================================================================== *)

Module UserPrefsMore.
Import UserPrefs UserPrefsFacts.

Lemma str_of_int_inj z z' : str_of_int z = str_of_int z' -> z = z'.
Proof.
  assert (Hdigit : forall n r, str_of_nat n <> 45%N :: r).
  { intros n r Heq. pose proof (str_of_nat_digits n) as Hd.
    rewrite Heq in Hd. inversion Hd; subst. lia. }
  unfold str_of_int.
  destruct z as [|p|p], z' as [|p'|p']; intros Heq; try done;
    try (apply str_of_nat_inj in Heq; lia);
    try (by apply Hdigit in Heq);
    try (symmetry in Heq; by apply Hdigit in Heq).
  apply (app_inv_head [45%N]) in Heq. apply str_of_nat_inj in Heq. lia.
Qed.

Lemma with_defaults_set f user_id kwargs :
  with_defaults (set f user_id kwargs).1 = (set f user_id kwargs).1.
Proof.
  apply map_eq. intros k. rewrite with_defaults_lookup.
  destruct ((set f user_id kwargs).1 !! k) eqn:Hk; [done|].
  rewrite set_fst, get_fst in Hk.
  apply lookup_union_None in Hk as [_ Hk].
  unfold with_defaults in Hk. by apply lookup_union_None in Hk as [_ Hk].
Qed.

Lemma stored_set f user_id kwargs :
  stored (set f user_id kwargs).2 user_id = (set f user_id kwargs).1.
Proof.
  rewrite set_snd. unfold stored. cbn [_load fst]. by rewrite lookup_insert_eq.
Qed.

Lemma stored_set_other f user_id other kwargs :
  user_id <> other ->
  stored (set f user_id kwargs).2 other = stored f other.
Proof.
  intros Hne. rewrite set_snd. unfold stored. cbn [_load fst].
  rewrite lookup_insert_ne; [done|]. intros Heq. by apply str_of_int_inj in Heq.
Qed.

Lemma stored_get f user_id other :
  stored (get f user_id).2 other = stored f other.
Proof. unfold get, stored. by destruct f. Qed.

(** X10. What [set] returns is what [get] returns afterwards, and
    passing the same keywords again changes nothing; reading does not
    change what is stored. *)
Theorem prefs_set_get_round_trip
    (f : file) (user_id : Z) (kwargs : gmap (list N) pyval) :
  (get (set f user_id kwargs).2 user_id).1 = (set f user_id kwargs).1
  /\ (set (set f user_id kwargs).2 user_id kwargs).1
     = (set f user_id kwargs).1
  /\ (forall reader other,
        (get (get f reader).2 other).1 = (get f other).1).
Proof.
  assert (Hget : (get (set f user_id kwargs).2 user_id).1
                 = (set f user_id kwargs).1).
  { by rewrite get_fst, stored_set, with_defaults_set. }
  split; [done|]. split.
  - rewrite (set_fst (set f user_id kwargs).2), Hget.
    rewrite set_fst. by rewrite (assoc_L (∪)), (idemp_L (∪)).
  - intros reader other. by rewrite !get_fst, stored_get.
Qed.

(** X11. The records are kept per user: [set] for one user id changes
    neither what is stored for another id nor what [get] returns for
    it, also when the file was absent or unreadable before. *)
Theorem prefs_user_isolation
    (f : file) (user_id other : Z) (kwargs : gmap (list N) pyval) :
  user_id <> other ->
  stored (set f user_id kwargs).2 other = stored f other
  /\ (get (set f user_id kwargs).2 other).1 = (get f other).1.
Proof.
  intros Hne. split; [by apply stored_set_other|].
  by rewrite !get_fst, stored_set_other.
Qed.

(** User 7 has a record; user 42 changes the style. *)
Lemma prefs_user_isolation_witness :
  stored
    (set (Valid {[ str_of_int 7 := {[ k_lang := VStr (py "en-US") ]} ]}) 42
       {[ k_style := VStr (py "calm") ]}).2 7
  = stored (Valid {[ str_of_int 7 := {[ k_lang := VStr (py "en-US") ]} ]}) 7
  /\ (get
        (set (Valid {[ str_of_int 7 := {[ k_lang := VStr (py "en-US") ]} ]}) 42
           {[ k_style := VStr (py "calm") ]}).2 7).1
     = (get (Valid {[ str_of_int 7 := {[ k_lang := VStr (py "en-US") ]} ]}) 7).1.
Proof.
  apply (prefs_user_isolation
           (Valid {[ str_of_int 7 := {[ k_lang := VStr (py "en-US") ]} ]})
           42 7 {[ k_style := VStr (py "calm") ]}).
  lia.
Defined.

End UserPrefsMore.

(* ================================================================== *)
(** * Properties of the TTS plan *)
(* ================================================================== *)

Lemma startswith_spec p s : startswith p s = true <-> exists r, s = p ++ r.
Proof.
  revert s. induction p as [|c p IH]; intros s.
  - split; [by exists s|done].
  - destruct s as [|d s]; cbn [startswith].
    + split; [done|by intros [r [=]]].
    + rewrite andb_true_iff, N.eqb_eq, IH. split.
      * intros [-> [r ->]]. by exists r.
      * intros [r [= -> ->]]. split; [done|by exists r].
Qed.

Lemma contains_nonempty needle hay :
  needle <> [] -> contains needle hay = true -> hay <> [].
Proof. intros Hne Hc ->. destruct needle; [done|]. by cbn in Hc. Qed.

Module TtsSupportFacts.
Import TtsSupport.

Lemma supported_langs lang_code :
  lang_code ∈ SUPPORTED_TTS_LANGS <-> lang_code = RU \/ lang_code = EN.
Proof. unfold SUPPORTED_TTS_LANGS. set_solver. Qed.

Lemma first_voice_supported lang_code :
  lang_code ∈ SUPPORTED_TTS_LANGS ->
  exists v, first_voice lang_code = Some v /\ contains lang_code v = true.
Proof.
  intros [-> | ->]%supported_langs; eexists; split; by vm_compute.
Qed.

(** X12. Whatever language and voice are asked for, the plan of
    [normalize_tts_request] names a supported language and a voice whose
    name holds the code of that language. The plan is direct exactly
    when the language asked for (Russian when none is given) is
    supported; then the voice asked for is kept when its name holds the
    language code, and replaced by the first voice of the language when
    not. Otherwise the text is to be translated to Russian and read by
    the first Russian voice. *)
Theorem tts_plan_supported (user_lang user_voice : option pystr) :
  let asked := match user_lang with
               | Some (c :: l) => c :: l
               | _ => RU
               end in
  let plan := normalize_tts_request user_lang user_voice in
  lang plan ∈ SUPPORTED_TTS_LANGS
  /\ (exists v, voice plan = Some v /\ contains (lang plan) v = true)
  /\ (asked ∈ SUPPORTED_TTS_LANGS ->
      strategy plan = DIRECT /\ lang plan = asked /\ target_lang plan = None
      /\ (forall v, user_voice = Some v -> contains asked v = true ->
            voice plan = Some v)
      /\ ((forall v, user_voice = Some v -> contains asked v = false) ->
          voice plan = first_voice asked))
  /\ (asked ∉ SUPPORTED_TTS_LANGS ->
      plan = {| lang := RU; voice := Some (py "ru-RU-Wavenet-D");
                strategy := TRANSLATE; target_lang := Some RU |}).
Proof.
  intros asked plan. unfold plan, normalize_tts_request. fold asked.
  assert (Hasked : asked <> []) by (unfold asked; by destruct user_lang as [[|??]|]).
  destruct (decide (asked ∈ SUPPORTED_TTS_LANGS)) as [Hin|Hout].
  - rewrite bool_decide_true by done. cbn [lang voice strategy target_lang].
    destruct (first_voice_supported asked Hin) as (dv & Hdv & Hdvc).
    split; [done|]. split; [|split; [|done]].
    + destruct user_voice as [[|c v]|]; [by exists dv|..|by exists dv].
      destruct (contains asked (c :: v)) eqn:Hc; [by eexists|by exists dv].
    + intros _. split; [done|]. split; [done|]. split; [done|]. split.
      * intros v -> Hc. pose proof (contains_nonempty _ _ Hasked Hc).
        destruct v as [|c v]; [done|]. by rewrite Hc.
      * intros Hno. destruct user_voice as [[|c v]|]; [done| |done].
        by rewrite (Hno (c :: v)).
  - rewrite bool_decide_false by done. cbn [lang voice strategy target_lang].
    split; [apply supported_langs; by left|].
    split; [eexists; split; by vm_compute|]. split; [done|]. done.
Qed.

(** X13. A plan is stable: asking for the language and the voice of a
    plan gives the direct plan with that language and that voice. *)
Theorem tts_plan_stable (user_lang user_voice : option pystr) :
  let plan := normalize_tts_request user_lang user_voice in
  normalize_tts_request (Some (lang plan)) (voice plan)
  = {| lang := lang plan; voice := voice plan; strategy := DIRECT;
       target_lang := None |}.
Proof.
  intros plan.
  destruct (tts_plan_supported user_lang user_voice)
    as (Hlang & (v & Hv & Hc) & _). fold plan in Hlang, Hv, Hc.
  assert (Hne : lang plan <> []).
  { apply supported_langs in Hlang as [-> | ->]; done. }
  unfold normalize_tts_request at 1.
  destruct (lang plan) as [|c l] eqn:Hl; [done|].
  rewrite bool_decide_true by done. rewrite Hv.
  pose proof (contains_nonempty _ _ Hne Hc) as Hvne.
  destruct v as [|d v]; [done|]. by rewrite Hc.
Qed.

(** Uzbek is not supported and is read in Russian; an English request
    with a Russian voice gets the first English voice. *)
Example tts_plan_examples :
  normalize_tts_request (Some (py "uz-UZ")) (Some (py "ru-RU-Wavenet-C"))
  = {| lang := RU; voice := Some (py "ru-RU-Wavenet-D");
       strategy := TRANSLATE; target_lang := Some RU |}
  /\ normalize_tts_request (Some EN) (Some (py "ru-RU-Wavenet-C"))
     = {| lang := EN; voice := Some (py "en-US-Wavenet-D");
          strategy := DIRECT; target_lang := None |}
  /\ normalize_tts_request None (Some (py "ru-RU-Wavenet-C"))
     = {| lang := RU; voice := Some (py "ru-RU-Wavenet-C");
          strategy := DIRECT; target_lang := None |}.
Proof. repeat split; by vm_compute. Qed.

End TtsSupportFacts.

(* ================================================================== *)
(** * Properties of the preference buttons *)
(* ================================================================== *)

Module BotFacts.
Import UserPrefs UserPrefsFacts UserPrefsMore Bot.

Lemma get_after_set f user_id kwargs k :
  (get (set f user_id kwargs).2 user_id).1 !! k
  = match kwargs !! k with
    | Some VNone | None => (get f user_id).1 !! k
    | Some v => Some v
    end.
Proof.
  rewrite (proj1 (prefs_set_get_round_trip f user_id kwargs)).
  apply set_lookup.
Qed.

Lemma get_after_set_none f user_id key k :
  (get (set f user_id {[ key := VNone ]}).2 user_id).1 !! k
  = (get f user_id).1 !! k.
Proof.
  rewrite get_after_set. destruct (decide (key = k)) as [->|Hne].
  - by rewrite lookup_singleton_eq.
  - by rewrite lookup_singleton_ne.
Qed.

Lemma get_after_set_one f user_id key v k :
  v <> VNone ->
  (get (set f user_id {[ key := v ]}).2 user_id).1 !! k
  = if decide (key = k) then Some v else (get f user_id).1 !! k.
Proof.
  intros Hv. rewrite get_after_set. destruct (decide (key = k)) as [->|Hne].
  - rewrite lookup_singleton_eq. by destruct v.
  - by rewrite lookup_singleton_ne.
Qed.

Lemma prefixed_data prefix data :
  after_sep 58 prefix = Some [] ->
  startswith prefix data = true ->
  exists rest, data = prefix ++ rest /\ after_sep 58 data = Some rest.
Proof.
  intros Hsep [rest ->]%startswith_spec. exists rest. split; [done|].
  revert Hsep. induction prefix as [|c prefix IH]; [done|].
  cbn [app after_sep]. destruct (c =? 58)%N.
  - intros [= ->]. done.
  - apply IH.
Qed.

(** The file after the language branch: the second [set], with
    [voice=None], changes nothing [get] can see. *)
Lemma lang_branch_get f user_id lang_code k :
  let f1 := (set f user_id {[ k_lang := VStr lang_code ]}).2 in
  let f2 := match TtsSupport.VOICES_BY_LANG !! lang_code with
            | None => (set f1 user_id {[ k_voice := VNone ]}).2
            | Some _ => f1
            end in
  (get f2 user_id).1 !! k
  = if decide (k_lang = k) then Some (VStr lang_code)
    else (get f user_id).1 !! k.
Proof.
  intros f1 f2. unfold f2.
  destruct (TtsSupport.VOICES_BY_LANG !! lang_code);
    rewrite ?get_after_set_none; unfold f1; by rewrite get_after_set_one.
Qed.

Lemma lang_branch_other f user_id other lang_code :
  user_id <> other ->
  let f1 := (set f user_id {[ k_lang := VStr lang_code ]}).2 in
  let f2 := match TtsSupport.VOICES_BY_LANG !! lang_code with
            | None => (set f1 user_id {[ k_voice := VNone ]}).2
            | Some _ => f1
            end in
  (get f2 other).1 = (get f other).1.
Proof.
  intros Hne f1 f2. unfold f2, f1.
  destruct (TtsSupport.VOICES_BY_LANG !! lang_code);
    by rewrite ?(proj2 (prefs_user_isolation _ _ _ _ Hne)).
Qed.

(** X14. A preference button changes only what it names, and only for
    the user who pressed it: the language changes only to one of the
    supported languages, the style only to one of the three styles, the
    voice only through a voice button (to whatever name the button
    carries); the preferences of other users stay as they were. *)
Theorem prefs_buttons_validated
    (f f' : file) (user_id : Z) (data reply : pystr) :
  prefs_callback f user_id data = Some (reply, f') ->
  ((get f' user_id).1 !! k_lang = (get f user_id).1 !! k_lang
   \/ exists l, l ∈ SUPPORTED_LANGS /\ data = SET_LANG ++ l
        /\ (get f' user_id).1 !! k_lang = Some (VStr l))
  /\ ((get f' user_id).1 !! k_style = (get f user_id).1 !! k_style
      \/ exists s, s ∈ STYLES /\ data = SET_STYLE ++ s
           /\ (get f' user_id).1 !! k_style = Some (VStr s))
  /\ ((get f' user_id).1 !! k_voice = (get f user_id).1 !! k_voice
      \/ exists v, data = SET_VOICE ++ v
           /\ (get f' user_id).1 !! k_voice = Some (VStr v))
  /\ (forall other, other <> user_id -> (get f' other).1 = (get f other).1).
Proof.
  unfold prefs_callback.
  destruct (startswith SET_LANG data) eqn:Hlang.
  { destruct (prefixed_data SET_LANG data eq_refl Hlang) as (l & -> & ->).
    destruct (bool_decide (l ∈ SUPPORTED_LANGS)) eqn:Hsup.
    - apply bool_decide_eq_true in Hsup.
      intros Hres.
      assert (Hf' : f' = match TtsSupport.VOICES_BY_LANG !! l with
                         | None => (set (set f user_id {[k_lang := VStr l]}).2
                                      user_id {[k_voice := VNone]}).2
                         | Some _ => (set f user_id {[k_lang := VStr l]}).2
                         end).
      { by destruct (bool_decide (l = py "uz-UZ")); injection Hres as _ <-. }
      subst f'. split; [|split; [|split]].
      + right. exists l. split; [done|]. split; [done|].
        by rewrite (lang_branch_get f user_id l k_lang).
      + left. by rewrite (lang_branch_get f user_id l k_style).
      + left. by rewrite (lang_branch_get f user_id l k_voice).
      + intros other Hne. by apply lang_branch_other.
    - intros [= _ <-]. auto. }
  destruct (startswith SET_VOICE data) eqn:Hvoice.
  { destruct (prefixed_data SET_VOICE data eq_refl Hvoice) as (v & -> & ->).
    intros [= _ <-]. split; [|split; [|split]].
    - left. by rewrite get_after_set_one.
    - left. by rewrite get_after_set_one.
    - right. exists v. split; [done|]. by rewrite get_after_set_one.
    - intros other Hne.
      by rewrite (proj2 (prefs_user_isolation _ _ _ _ (not_eq_sym Hne))). }
  destruct (startswith SET_STYLE data) eqn:Hstyle; [|done].
  destruct (prefixed_data SET_STYLE data eq_refl Hstyle) as (s & -> & ->).
  destruct (bool_decide (s ∈ STYLES)) eqn:Hs.
  - apply bool_decide_eq_true in Hs. intros [= _ <-].
    split; [|split; [|split]].
    + left. by rewrite get_after_set_one.
    + right. exists s. split; [done|]. split; [done|].
      by rewrite get_after_set_one.
    + left. by rewrite get_after_set_one.
    + intros other Hne.
      by rewrite (proj2 (prefs_user_isolation _ _ _ _ (not_eq_sym Hne))).
  - intros [= _ <-]. auto.
Qed.

(** User 42 picks the calm style. *)
Lemma prefs_buttons_validated_witness :
  (get (set Missing 42 {[ k_style := VStr (py "calm") ]}).2 42).1 !! k_lang
  = (get Missing 42).1 !! k_lang
  \/ exists l, l ∈ SUPPORTED_LANGS /\ py "set_style:calm" = SET_LANG ++ l
       /\ (get (set Missing 42 {[ k_style := VStr (py "calm") ]}).2 42).1
            !! k_lang = Some (VStr l).
Proof.
  apply (prefs_buttons_validated Missing
           (set Missing 42 {[ k_style := VStr (py "calm") ]}).2 42
           (py "set_style:calm") (py "Готово: стиль = calm")).
  by vm_compute.
Defined.

(** X15. Choosing a supported language stores it and leaves voice and
    style as they were. This holds for [uz-UZ] too, the language
    without voices of its own: the call that passes [voice=None] after
    the language is stored does not clear the voice. *)
Theorem lang_button_keeps_voice (f : file) (user_id : Z) (l : pystr) :
  l ∈ SUPPORTED_LANGS ->
  exists reply f',
    prefs_callback f user_id (SET_LANG ++ l) = Some (reply, f')
    /\ (get f' user_id).1 !! k_lang = Some (VStr l)
    /\ (get f' user_id).1 !! k_voice = (get f user_id).1 !! k_voice
    /\ (get f' user_id).1 !! k_style = (get f user_id).1 !! k_style.
Proof.
  intros Hl. unfold prefs_callback.
  assert (Hstart : startswith SET_LANG (SET_LANG ++ l) = true)
    by (apply startswith_spec; by exists l).
  destruct (prefixed_data SET_LANG _ eq_refl Hstart) as (l' & Heq & ->).
  apply app_inv_head in Heq. subst l'.
  rewrite Hstart, bool_decide_true by done.
  destruct (bool_decide (l = py "uz-UZ")); eexists _, _;
    (split; [done|]);
    rewrite !(lang_branch_get f user_id l); done.
Qed.

(** The stored voice of a user survives the change to Uzbek. *)
Lemma lang_button_keeps_voice_witness :
  exists reply f',
    prefs_callback
      (Valid {[ str_of_int 42 := {[ k_voice := VStr (py "en-US-Wavenet-F") ]} ]})
      42 (SET_LANG ++ py "uz-UZ") = Some (reply, f')
    /\ (get f' 42).1 !! k_lang = Some (VStr (py "uz-UZ"))
    /\ (get f' 42).1 !! k_voice
       = (get (Valid {[ str_of_int 42
                        := {[ k_voice := VStr (py "en-US-Wavenet-F") ]} ]}) 42).1
           !! k_voice
    /\ (get f' 42).1 !! k_style
       = (get (Valid {[ str_of_int 42
                        := {[ k_voice := VStr (py "en-US-Wavenet-F") ]} ]}) 42).1
           !! k_style.
Proof.
  apply (lang_button_keeps_voice
           (Valid {[ str_of_int 42
                     := {[ k_voice := VStr (py "en-US-Wavenet-F") ]} ]})
           42 (py "uz-UZ")).
  apply list_elem_of_In. right. left. by vm_compute.
Defined.

Example prefs_callback_examples :
  prefs_callback Missing 42 (py "set_lang:de-DE")
  = Some (py "Неподдерживаемый язык", Missing)
  /\ prefs_callback Missing 42 (py "set_style:angry")
     = Some (py "Неподдерживаемый стиль", Missing)
  /\ prefs_callback Missing 42 (py "experience") = None
  /\ (get (default Missing
             (snd <$> prefs_callback Missing 42 (py "set_lang:uz-UZ"))) 42).1
     = <[k_lang := VStr (py "uz-UZ")]> _DEFAULT.
Proof. repeat split; by vm_compute. Qed.

End BotFacts.

(* ================================================================== *)
(** * Properties of the webhook's answer *)
(* ================================================================== *)

Section WebhookAnswer.
Context `{Backends}.

(** X16. [_gen_answer] always returns a text that is not empty and has
    no white space at either end: a fixed notice when no model is
    configured, the backend's text, stripped, when it has a character
    besides white space, and a fixed apology when the text is empty or
    the call raises. *)
Theorem gen_answer_never_empty
    (configured : bool) (user_message user_id : pystr) :
  let outcome := generate_content (Webhook.answer_prompt user_message) in
  let answer := Webhook._gen_answer configured user_message user_id in
  answer <> [] /\ trimmed answer
  /\ (configured = false -> answer = Webhook.NOT_CONFIGURED)
  /\ (configured = true ->
      (outcome = None -> answer = Webhook.FAILED)
      /\ (forall resp_text, outcome = Some resp_text ->
            (visible (default [] resp_text) = [] -> answer = Webhook.NO_ANSWER)
            /\ (visible (default [] resp_text) <> [] ->
                answer = strip (default [] resp_text)))).
Proof.
  intros outcome answer. unfold answer, Webhook._gen_answer. fold outcome.
  destruct configured; cbn [negb].
  - destruct outcome as [resp_text|].
    + pose proof (strip_trimmed (default [] resp_text)) as Ht.
      pose proof (strip_nil (default [] resp_text)) as Hn.
      destruct (strip (default [] resp_text)) as [|c s] eqn:Hs.
      * split; [done|]. split; [by vm_compute|]. split; [done|].
        intros _. split; [done|]. intros t [= <-]. split; [done|].
        intros Hv. by destruct Hv, Hn as [Hn _]; apply Hn.
      * split; [done|]. split; [done|]. split; [done|].
        intros _. split; [done|]. intros t [= <-]. split; [|done].
        intros Hv. apply Hn in Hv. done.
    + split; [done|]. split; [by vm_compute|]. split; [done|].
      intros _. split; [done|]. done.
  - split; [done|]. split; [by vm_compute|]. split; [done|]. done.
Qed.

End WebhookAnswer.

(* ================================================================== *)
(** * Properties of speech synthesis *)
(* ================================================================== *)

Module SpeechFacts.
Import Speech.

Section Synthesis.
Context `{TtsBackend}.

Lemma try_voices_audio call candidates last_err a :
  try_voices call candidates last_err = Audio a <->
  exists before v after,
    candidates = before ++ v :: after
    /\ Forall (fails call) before /\ call v = inr a.
Proof.
  revert last_err. induction candidates as [|c rest IH]; intros last_err.
  - cbn. split; [by destruct last_err|]. by intros ([|??] & ? & ? & [=] & _).
  - cbn [try_voices]. destruct (call c) as [e|a'] eqn:Hc.
    + rewrite IH. split.
      * intros (before & v & after & -> & Hb & Hv).
        exists (c :: before), v, after. split; [done|].
        split; [constructor; [by exists e|done]|done].
      * intros ([|c' before] & v & after & [= <- Hrest] & Hb & Hv).
        { congruence. }
        exists before, v, after. split; [done|].
        split; [by inversion Hb|done].
    + split.
      * intros [= <-]. exists [], c, rest. by split; [|split].
      * intros ([|c' before] & v & after & [= <- Hrest] & Hb & Hv).
        { congruence. }
        inversion Hb as [|? ? [e He] _]; subst. congruence.
Qed.

Lemma try_voices_raised call candidates last_err e :
  try_voices call candidates last_err = Raised e <->
  Forall (fails call) candidates
  /\ match last candidates with
     | Some v => call v = inl e
     | None => last_err = Some e
     end.
Proof.
  revert last_err. induction candidates as [|c rest IH]; intros last_err.
  - cbn. split.
    + destruct last_err; [|done]. intros [= ->]. by split.
    + by intros [_ ->].
  - cbn [try_voices]. destruct (call c) as [e'|a'] eqn:Hc.
    + rewrite IH. split.
      * intros [Hall Hlast]. split; [constructor; [by exists e'|done]|].
        destruct rest as [|c' rest']; [cbn in *; congruence|].
        rewrite last_cons_cons.
        destruct (last (c' :: rest')) eqn:Hl; [done|].
        by apply last_None in Hl.
      * intros [Hall Hlast]. split; [by inversion Hall|].
        destruct rest as [|c' rest']; [cbn in *; congruence|].
        rewrite last_cons_cons in Hlast.
        destruct (last (c' :: rest')) eqn:Hl; [done|].
        by apply last_None in Hl.
    + split; [done|]. intros [Hall _].
      inversion Hall as [|? ? [e' He'] _]; subst. congruence.
Qed.

Lemma try_voices_no_candidate call candidates last_err :
  try_voices call candidates last_err = NoCandidate ->
  candidates = [] /\ last_err = None.
Proof.
  revert last_err. induction candidates as [|c rest IH]; intros last_err.
  - cbn. by destruct last_err.
  - cbn [try_voices]. destruct (call c) as [e|a]; [|done].
    intros Hres. by destruct (IH _ Hres) as [_ [=]].
Qed.

Lemma candidate_voices_eq voice_name :
  candidate_voices voice_name
  = match voice_name with
    | [] => []
    | _ => [voice_name]
    end ++ FALLBACK_VOICES.
Proof. unfold candidate_voices. by destruct voice_name. Qed.

Lemma safe_text_length text : len (safe_text text) <= 1201.
Proof.
  unfold safe_text. destruct (Nat.ltb_spec 1200 (len (strip text))); [|lia].
  unfold len, upto. rewrite length_app, length_take.
  change (length (py "…")) with 1. unfold len in *. lia.
Qed.

(** X17. [_synthesize_sync] sends the stripped text, cut to 1200
    characters and an ellipsis when it is longer, so never more than
    1201 characters. It tries the given voice (when it is not empty) and
    then four built-in Russian voices, in this order, and returns the
    audio of the first voice for which the service does not raise; it
    raises only when the service raises for every candidate, and then
    with the error of the last one, [ru-RU-Standard-A]. The error that
    no candidate was there to try is never raised. *)
Theorem synthesize_first_working_voice
    (text language_code voice_name : pystr) (speaking_rate pitch : float)
    (encoding : pystr) :
  let ogg := bool_decide (py_upper encoding = py "OGG_OPUS") in
  let call := fun candidate =>
    tts_synthesize (safe_text text) language_code candidate ogg
      speaking_rate pitch in
  let candidates := match voice_name with
                    | [] => []
                    | _ => [voice_name]
                    end ++ FALLBACK_VOICES in
  let result := _synthesize_sync text language_code voice_name
                  speaking_rate pitch encoding in
  len (safe_text text) <= 1201
  /\ (len (strip text) <= 1200 -> safe_text text = strip text)
  /\ (1200 < len (strip text) ->
      safe_text text = take 1200 (strip text) ++ py "…")
  /\ (forall a, result = Audio a <->
        exists before v after,
          candidates = before ++ v :: after
          /\ Forall (fails call) before /\ call v = inr a)
  /\ (forall e, result = Raised e <->
        Forall (fails call) candidates
        /\ call (py "ru-RU-Standard-A") = inl e)
  /\ result <> NoCandidate.
Proof.
  intros ogg call candidates result.
  assert (Hres : result = try_voices call candidates None).
  { unfold result, _synthesize_sync. by rewrite candidate_voices_eq. }
  split; [apply safe_text_length|]. split; [|split; [|split; [|split]]].
  - intros Hshort. unfold safe_text.
    by destruct (Nat.ltb_spec 1200 (len (strip text))); [lia|].
  - intros Hlong. unfold safe_text.
    by destruct (Nat.ltb_spec 1200 (len (strip text))); [|lia].
  - intros a. rewrite Hres. apply try_voices_audio.
  - intros e. rewrite Hres, try_voices_raised.
    assert (Hlast : last candidates = Some (py "ru-RU-Standard-A")).
    { unfold candidates. by destruct voice_name. }
    by rewrite Hlast.
  - rewrite Hres. intros [Hnil _]%try_voices_no_candidate.
    unfold candidates in Hnil. by destruct voice_name.
Qed.

End Synthesis.

Example synthesize_falls_back :
  @_synthesize_sync wavenet_only (py " привет ") (py "ru-RU") (py "Maria")
    0.98%float 1%float (py "OGG_OPUS")
  = @Audio wavenet_only (py "ru-RU-Wavenet-D:привет").
Proof. by vm_compute. Qed.

Example safe_text_long :
  len (safe_text (repeat 97%N 2000)) = 1201
  /\ safe_text (py "  да  ") = py "да".
Proof. split; by vm_compute. Qed.

End SpeechFacts.

(* ================================================================== *)
(** * Properties of the translation request *)
(* ================================================================== *)

Module TranslateFacts.
Import Translate.

Lemma before_sep_split sep s :
  sep ∉ before_sep sep s
  /\ (before_sep sep s = s
      \/ exists rest, s = before_sep sep s ++ sep :: rest).
Proof.
  induction s as [|c s [IHn IHs]]; cbn [before_sep].
  - split; [set_solver|by left].
  - destruct (N.eqb_spec c sep) as [->|Hne].
    + split; [set_solver|]. right. by exists s.
    + split; [set_solver|]. destruct IHs as [->|[rest Hrest]]; [by left|].
      right. exists rest. cbn. by rewrite <- Hrest.
Qed.

(** X18. [translate_via_gemini] asks for exactly one translation, into
    the language named by what precedes the first hyphen of the target
    (of [ru-RU] when no target is given), a name with no hyphen in it.
    It raises exactly when that request raises; when it returns, the
    result is the stripped text of the answer: it has no white space at
    either end, and is empty exactly when the answer has no text or
    white space only. *)
Theorem translate_request_and_result
    (generate : pystr -> option (option pystr)) (text : pystr)
    (target_lang : option pystr) :
  let asked := asked_lang target_lang in
  let tl := before_sep HYPHEN asked in
  let outcome := generate (translate_prompt tl text) in
  let result := translate_via_gemini generate text target_lang in
  HYPHEN ∉ tl
  /\ (tl = asked \/ exists region, asked = tl ++ HYPHEN :: region)
  /\ ((target_lang = None \/ target_lang = Some []) -> tl = py "ru")
  /\ (result = None <-> outcome = None)
  /\ (forall out_text, outcome = Some out_text ->
        exists r, result = Some r
          /\ r = strip (default [] out_text)
          /\ trimmed r
          /\ visible r = visible (default [] out_text)
          /\ (r = [] <-> visible (default [] out_text) = [])).
Proof.
  intros asked tl outcome result.
  destruct (before_sep_split HYPHEN asked) as [Hno Hsplit].
  split; [done|]. split; [done|]. split; [|split].
  - unfold tl, asked. by intros [-> | ->].
  - unfold result, translate_via_gemini. fold asked tl outcome.
    by destruct outcome.
  - intros out_text Hout. unfold result, translate_via_gemini.
    fold asked tl outcome. rewrite Hout. eexists. split; [done|].
    split; [done|]. split; [apply strip_trimmed|].
    split; [apply strip_visible|apply strip_nil].
Qed.

Example translate_examples :
  let echo := fun prompt : pystr => Some (Some (py "  " ++ prompt ++ NL)) in
  translate_via_gemini echo (py "salom") (Some (py "en-US"))
  = Some (py "Переведи аккуратно и естественно на язык 'en'. Верни только перевод, без пояснений:

salom")
  /\ translate_via_gemini (fun _ => Some None) (py "salom") None = Some []
  /\ translate_via_gemini (fun _ => None) (py "salom") None = None.
Proof. repeat split; by vm_compute. Qed.

End TranslateFacts.
